(** * Check-Assistant: message protocol, page-side visit detector and
    background coordinator

  A shallow embedding of
  - [src/shared/types.ts]   (data model, message protocol, constants),
  - [src/content/index.ts]  (the content script that detects visits),
  - [docs/messaging.md]     (the background listener and the handler pattern),
  - the theme hook's storage fallback,
  together with a model of the background coordinator (matcher, recorder,
  scheduler, router) whose code is not part of the sources. *)

From Stdlib Require Import ZArith Bool Ascii String Sorted.
From stdpp Require Import gmap strings list fin_maps.

Local Open Scope string_scope.
Local Open Scope list_scope.

(* ===================================================================== *)
(** * JavaScript values and completions *)
(* ===================================================================== *)

Module Js.

(** A thrown value: an [Error] carrying its [message]. *)
Record Error := mkError { message : string }.

(** The outcome of evaluating a block: it completes normally with a
    value, or it throws. The same type describes a settled promise
    (fulfilled / rejected). *)
Inductive Completion (A : Type) : Type :=
| Normal (a : A)
| Throw (e : Error).
Arguments Normal {A} a.
Arguments Throw {A} e.

Definition bind {A B} (c : Completion A) (k : A -> Completion B) : Completion B :=
  match c with
  | Normal a => k a
  | Throw e => Throw e
  end.

(** [try { body } catch (error) { handler }] *)
Definition try_catch {A} (body : Completion A) (handler : Error -> Completion A)
  : Completion A :=
  match body with
  | Normal a => Normal a
  | Throw e => handler e
  end.

(** A value of type [T | null], where the [T] may also be [undefined]
    (an optional field read through a cast). *)
Inductive Nullable (T : Type) : Type :=
| Null
| Undefined
| Value (v : T).
Arguments Null {T}.
Arguments Undefined {T}.
Arguments Value {T} v.

(** Reading an optional field [o.f] typed [f?: T]. *)
Definition of_optional {T} (o : option T) : Nullable T :=
  match o with
  | Some v => Value v
  | None => Undefined
  end.

(** Truthiness of an optional boolean field. *)
Definition truthy (b : option bool) : bool :=
  match b with
  | Some true => true
  | _ => false
  end.

End Js.

(* ===================================================================== *)
(** * shared/types.ts *)
(* ===================================================================== *)

Module Types.

(** [interface Site] *)
Record Site := mkSite {
  id : string;
  url : string;
  title : string;
  favicon : option string;
  notes : option string;
  tags : option (list string);
  createdAt : Z;
  lastVisitedAt : option Z;
  visitCount : Z;
}.

(** [interface ReminderConfig] *)
Record ReminderConfig := mkReminderConfig {
  enabled : bool;
  times : list string;
}.

Inductive Theme := light | dark | system.

(** [interface Settings] *)
Record Settings := mkSettings {
  theme : Theme;
  reminder : ReminderConfig;
  autoDetectVisits : bool;
  notificationsEnabled : bool;
}.

(** [type MessageType], in the order of the union's members. *)
Inductive MessageType :=
| SAVE_SITE
| GET_SITES
| UPDATE_SITE
| DELETE_SITE
| MARK_VISITED
| MARK_CHECKED_IN
| SITE_VISITED
| CHECK_URL_MATCH
| GET_SETTINGS
| UPDATE_SETTINGS
| CLEAR_ALL_SITES
| RESET_ALL_STATUS
| NOTIFICATION_ACTION
| OPEN_POPUP.

(** The string literal each member of the union stands for. *)
Definition literal (t : MessageType) : string :=
  match t with
  | SAVE_SITE => "SAVE_SITE"
  | GET_SITES => "GET_SITES"
  | UPDATE_SITE => "UPDATE_SITE"
  | DELETE_SITE => "DELETE_SITE"
  | MARK_VISITED => "MARK_VISITED"
  | MARK_CHECKED_IN => "MARK_CHECKED_IN"
  | SITE_VISITED => "SITE_VISITED"
  | CHECK_URL_MATCH => "CHECK_URL_MATCH"
  | GET_SETTINGS => "GET_SETTINGS"
  | UPDATE_SETTINGS => "UPDATE_SETTINGS"
  | CLEAR_ALL_SITES => "CLEAR_ALL_SITES"
  | RESET_ALL_STATUS => "RESET_ALL_STATUS"
  | NOTIFICATION_ACTION => "NOTIFICATION_ACTION"
  | OPEN_POPUP => "OPEN_POPUP"
  end.

(** The members of the union, in source order. *)
Definition MessageTypes : list MessageType :=
  [ SAVE_SITE; GET_SITES; UPDATE_SITE; DELETE_SITE; MARK_VISITED;
    MARK_CHECKED_IN; SITE_VISITED; CHECK_URL_MATCH; GET_SETTINGS;
    UPDATE_SETTINGS; CLEAR_ALL_SITES; RESET_ALL_STATUS;
    NOTIFICATION_ACTION; OPEN_POPUP ].

(** Whether a string read off the wire inhabits the union. *)
Fixpoint find_literal (s : string) (ts : list MessageType) : option MessageType :=
  match ts with
  | [] => None
  | t :: ts' => if String.eqb s (literal t) then Some t else find_literal s ts'
  end.

Definition asMessageType (s : string) : option MessageType :=
  find_literal s MessageTypes.

(** [interface MessageResponse<T>] *)
Record MessageResponse (T : Type) := mkResponse {
  success : bool;
  data : option T;
  error : option string;
}.
Arguments mkResponse {T} _ _ _.
Arguments success {T} _.
Arguments data {T} _.
Arguments error {T} _.

(** An envelope whose [success] flag discriminates its fields: a success
    carries no error; a failure carries an error and no data. *)
Definition wellFormed {T} (r : MessageResponse T) : Prop :=
  if success r then error r = None
  else data r = None /\ is_Some (error r).

(** [interface SiteVisitedPayload] *)
Record SiteVisitedPayload := mkSiteVisitedPayload {
  sv_url : string;
  sv_title : string;
  sv_timestamp : Z;
}.

(** [interface NotificationActionPayload] *)
Record NotificationActionPayload := mkNotificationActionPayload {
  notificationId : string;
  buttonIndex : Z;
  na_siteId : option string;
}.

(** [interface UrlMatchResult] *)
Record UrlMatchResult := mkUrlMatchResult {
  matched : bool;
  siteId : option string;
  siteName : option string;
  alreadyVisitedToday : option bool;
}.

(** A partial reminder configuration and a partial settings record
    ([Partial<...>], nested for the deep merge). *)
Record PartialReminder := mkPartialReminder {
  p_enabled : option bool;
  p_times : option (list string);
}.

Record PartialSettings := mkPartialSettings {
  p_theme : option Theme;
  p_reminder : option PartialReminder;
  p_autoDetectVisits : option bool;
  p_notificationsEnabled : option bool;
}.

(** Partial site fields carried by [UPDATE_SITE]. *)
Record SiteUpdates := mkSiteUpdates {
  u_url : option string;
  u_title : option string;
  u_notes : option string;
}.

(** The payload shapes of the protocol ([payload?: T], [T = unknown]). *)
Inductive Payload :=
| PUrl (url : string)                              (* { url } *)
| PSiteVisited (p : SiteVisitedPayload)
| PSiteId (siteId : string)
| PAddSite (url title : string)                    (* { url, title } *)
| PUpdateSite (siteId : string) (updates : SiteUpdates)
| PSettings (partial : PartialSettings)
| PNotificationAction (p : NotificationActionPayload).

(** [interface Message<T>] *)
Record Message := mkMessage {
  type : MessageType;
  payload : option Payload;
}.

(** [STORAGE_KEYS] *)
Definition STORAGE_KEYS_SITES : string := "sites".
Definition STORAGE_KEYS_SETTINGS : string := "settings".

(** [ALARM_NAMES] *)
Definition DAILY_REMINDER_PREFIX : string := "reminder-".
Definition DAILY_RESET : string := "daily-reset".

(** [NOTIFICATION_IDS] *)
Definition CHECKIN_REMINDER : string := "checkin-reminder".
Definition SITE_VISIT_PREFIX : string := "site-visit-".

(** [DEFAULT_SETTINGS] *)
Definition DEFAULT_SETTINGS : Settings :=
  {| theme := system;
     reminder := {| enabled := false; times := ["09:00"] |};
     autoDetectVisits := false;
     notificationsEnabled := true |}.

End Types.

(* ===================================================================== *)
(** * The protocol as the specification words it *)
(* ===================================================================== *)

Module Spec.

(** The enumerated request types, in the order the specification lists
    them. *)
Definition requestTypes : list string :=
  [ "GET_SITES"; "SAVE_SITE"; "UPDATE_SITE"; "DELETE_SITE"; "MARK_VISITED";
    "MARK_CHECKED_IN"; "SITE_VISITED"; "CHECK_URL_MATCH"; "GET_SETTINGS";
    "UPDATE_SETTINGS"; "CLEAR_ALL_SITES"; "RESET_ALL_STATUS";
    "NOTIFICATION_ACTION"; "OPEN_POPUP" ].

End Spec.

(* ===================================================================== *)
(** * Local calendar days *)
(* ===================================================================== *)

Module Calendar.

Definition msPerDay : Z := 86400000.

(** The local calendar day a timestamp (milliseconds since the epoch)
    falls on; [offset] is the local time zone's offset in milliseconds. *)
Definition localDay (offset timestamp : Z) : Z :=
  ((timestamp + offset) / msPerDay)%Z.

End Calendar.

(* ===================================================================== *)
(** * content/index.ts *)
(* ===================================================================== *)

Module Content.
Import Js Types Calendar.

(** Module state: [hasNotifiedVisit] and [lastProcessedUrl]. *)
Record State := mkState {
  hasNotifiedVisit : bool;
  lastProcessedUrl : string;
}.

Definition initialState : State :=
  {| hasNotifiedVisit := false; lastProcessedUrl := "" |}.

(** What the script reads from the page when it runs:
    [window.location.href], [document.title], [Date.now()] and
    [document.visibilityState === 'visible']. *)
Record Page := mkPage {
  href : string;
  docTitle : string;
  now : Z;
  visible : bool;
}.

(** What [await chrome.runtime.sendMessage(message)] yields: the call
    throws (extension context invalidated), or it resolves to
    [undefined] (no response), or to a response envelope. *)
Definition ChannelResult (T : Type) : Type :=
  Completion (option (MessageResponse T)).

(** [sendMessage<T>(message)], given what the channel yields for it. *)
Definition sendMessage {T} (channel : ChannelResult T) : Completion (Nullable T) :=
  try_catch
    (bind channel (fun response =>
       match response with
       | Some r => if success r then Normal (of_optional (data r)) else Normal Null
       | None => Normal Null
       end))
    (fun error => Normal Null).

(** [matchResult?.matched] *)
Definition matched_of (matchResult : Nullable UrlMatchResult) : option UrlMatchResult :=
  match matchResult with
  | Value r => if matched r then Some r else None
  | _ => None
  end.

Definition checkUrlMatch (currentUrl : string) : Message :=
  {| type := CHECK_URL_MATCH; payload := Some (PUrl currentUrl) |}.

(** [document.title || currentUrl] *)
Definition titleOr (t currentUrl : string) : string :=
  if String.eqb t "" then currentUrl else t.

Definition siteVisited (currentUrl : string) (pg : Page) : Message :=
  {| type := SITE_VISITED;
     payload := Some (PSiteVisited
       {| sv_url := currentUrl;
          sv_title := titleOr (docTitle pg) currentUrl;
          sv_timestamp := now pg |}) |}.

(** [processVisit] is an async function: it runs up to its first
    [await], is suspended, and is resumed when the awaited message
    settles. A suspended run remembers its local [currentUrl]. *)
Inductive Suspended :=
| AwaitingMatch (currentUrl : string)
| AwaitingVisit (currentUrl : string).

(** The result of running one segment: the module state, the messages
    handed to [chrome.runtime.sendMessage], and the suspension, if the
    run has not returned. *)
Record Segment := mkSegment {
  seg_state : State;
  seg_sent : list Message;
  seg_next : option Suspended;
}.

Definition returned (st : State) : Segment :=
  {| seg_state := st; seg_sent := []; seg_next := None |}.

(** From the call to the first [await]. *)
Definition processVisit_begin (st : State) (pg : Page) : Segment :=
  let currentUrl := href pg in
  if hasNotifiedVisit st && String.eqb currentUrl (lastProcessedUrl st) then
    returned st
  else if negb (String.prefix "http://" currentUrl)
          && negb (String.prefix "https://" currentUrl) then
    returned st
  else
    {| seg_state := {| hasNotifiedVisit := hasNotifiedVisit st;
                       lastProcessedUrl := currentUrl |};
       seg_sent := [checkUrlMatch currentUrl];
       seg_next := Some (AwaitingMatch currentUrl) |}.

(** From the settled [CHECK_URL_MATCH] to the second [await]. The
    state and the page are those at the time of resumption. *)
Definition processVisit_matched (st : State) (pg : Page) (currentUrl : string)
    (channel : ChannelResult UrlMatchResult) : Segment :=
  match sendMessage channel with
  | Throw error => returned st                      (* catch: console.debug *)
  | Normal matchResult =>
      match matched_of matchResult with
      | None => returned st
      | Some r =>
          if truthy (alreadyVisitedToday r) then
            returned {| hasNotifiedVisit := true;
                        lastProcessedUrl := lastProcessedUrl st |}
          else
            {| seg_state := st;
               seg_sent := [siteVisited currentUrl pg];
               seg_next := Some (AwaitingVisit currentUrl) |}
      end
  end.

(** From the settled [SITE_VISITED] to the end. *)
Definition processVisit_visited (st : State)
    (channel : ChannelResult Site) : Segment :=
  match sendMessage channel with
  | Throw error => returned st                      (* catch: console.debug *)
  | Normal _ =>
      returned {| hasNotifiedVisit := true;
                  lastProcessedUrl := lastProcessedUrl st |}
  end.

(** What the channel yields to one run. *)
Record Replies := mkReplies {
  matchReply : ChannelResult UrlMatchResult;
  visitReply : ChannelResult Site;
}.

(** One run of [processVisit] that is not interleaved with anything
    else: each awaited message settles before the next event. *)
Definition processVisit (st : State) (pg : Page) (r : Replies) : State * list Message :=
  let s1 := processVisit_begin st pg in
  match seg_next s1 with
  | Some (AwaitingMatch currentUrl) =>
      let s2 := processVisit_matched (seg_state s1) pg currentUrl (matchReply r) in
      match seg_next s2 with
      | Some (AwaitingVisit _) =>
          let s3 := processVisit_visited (seg_state s2) (visitReply r) in
          (seg_state s3, seg_sent s1 ++ seg_sent s2 ++ seg_sent s3)
      | _ => (seg_state s2, seg_sent s1 ++ seg_sent s2)
      end
  | _ => (seg_state s1, seg_sent s1)
  end.

(** [handleUrlChange]: the new state, and whether
    [setTimeout(processVisit, 500)] was armed. *)
Definition handleUrlChange (st : State) (pg : Page) : State * bool :=
  if negb (String.eqb (href pg) (lastProcessedUrl st)) then
    ({| hasNotifiedVisit := false; lastProcessedUrl := lastProcessedUrl st |}, true)
  else (st, false).

(** The detector as a whole: module state, armed timers, and the log of
    messages handed to the channel. *)
Record World := mkWorld {
  detector : State;
  timers : nat;
  sent : list Message;
}.

Definition loaded : World :=
  {| detector := initialState; timers := 0; sent := [] |}.

(** The events that drive the script. *)
Inductive Event :=
| Initialize (pg : Page) (r : Replies)        (* initialize() *)
| UrlChange (pg : Page)                       (* pushState / replaceState / popstate *)
| TimerFired (pg : Page) (r : Replies)        (* the armed processVisit *)
| VisibilityChange (pg : Page) (r : Replies). (* visibilitychange *)

Definition runProcessVisit (w : World) (pg : Page) (r : Replies) : World :=
  let '(st, msgs) := processVisit (detector w) pg r in
  {| detector := st; timers := timers w; sent := sent w ++ msgs |}.

(** [handleVisibilityChange] *)
Definition handleVisibilityChange (w : World) (pg : Page) (r : Replies) : World :=
  if visible pg then runProcessVisit w pg r else w.

Definition step (w : World) (e : Event) : World :=
  match e with
  | Initialize pg r => runProcessVisit w pg r
  | UrlChange pg =>
      let '(st, armed) := handleUrlChange (detector w) pg in
      {| detector := st;
         timers := if armed then S (timers w) else timers w;
         sent := sent w |}
  | TimerFired pg r =>
      match timers w with
      | O => w
      | S n =>
          runProcessVisit
            {| detector := detector w; timers := n; sent := sent w |} pg r
      end
  | VisibilityChange pg r => handleVisibilityChange w pg r
  end.

Definition run (w : World) (es : list Event) : World := fold_left step es w.

(** *** Overlapping runs

    Nothing prevents an event from calling [processVisit] while an
    earlier run is suspended at an [await]. The pool numbers the runs in
    the order they were started and holds, for each, where it is
    suspended ([None] once it has returned); an action starts a run or
    resumes one. *)
Record Pool := mkPool {
  pool_state : State;
  pool_runs : list (option Suspended);
  pool_sent : list Message;
}.

Definition emptyPool : Pool :=
  {| pool_state := initialState; pool_runs := []; pool_sent := [] |}.

Inductive Action :=
| Call (pg : Page)                                     (* processVisit() *)
| Navigate (pg : Page)                                 (* handleUrlChange() *)
| SettleMatch (i : nat) (pg : Page) (c : ChannelResult UrlMatchResult)
| SettleVisit (i : nat) (c : ChannelResult Site).

Definition resume (p : Pool) (i : nat) (s : Segment) : Pool :=
  {| pool_state := seg_state s;
     pool_runs := <[i := seg_next s]> (pool_runs p);
     pool_sent := pool_sent p ++ seg_sent s |}.

Definition act (p : Pool) (a : Action) : Pool :=
  match a with
  | Call pg =>
      let s := processVisit_begin (pool_state p) pg in
      {| pool_state := seg_state s;
         pool_runs := pool_runs p ++ [seg_next s];
         pool_sent := pool_sent p ++ seg_sent s |}
  | Navigate pg =>
      {| pool_state := fst (handleUrlChange (pool_state p) pg);
         pool_runs := pool_runs p;
         pool_sent := pool_sent p |}
  | SettleMatch i pg c =>
      match pool_runs p !! i with
      | Some (Some (AwaitingMatch currentUrl)) =>
          resume p i (processVisit_matched (pool_state p) pg currentUrl c)
      | _ => p
      end
  | SettleVisit i c =>
      match pool_runs p !! i with
      | Some (Some (AwaitingVisit _)) =>
          resume p i (processVisit_visited (pool_state p) c)
      | _ => p
      end
  end.

Definition interleave (p : Pool) (acts : list Action) : Pool := fold_left act acts p.

(** The [SITE_VISITED] messages of a log that carry a given URL and
    whose timestamp falls on a given local day. *)
Definition isSiteVisited (m : Message) : bool :=
  match type m with SITE_VISITED => true | _ => false end.

Definition isCheckUrlMatch (m : Message) : bool :=
  match type m with CHECK_URL_MATCH => true | _ => false end.

Definition visitedOn (offset : Z) (u : string) (day : Z) (m : Message) : bool :=
  match type m, payload m with
  | SITE_VISITED, Some (PSiteVisited p) =>
      String.eqb (sv_url p) u && Z.eqb (localDay offset (sv_timestamp p)) day
  | _, _ => false
  end.

Definition countSiteVisited (log : list Message) : nat :=
  length (filter (fun m => isSiteVisited m = true) log).

Definition countVisitedOn (offset : Z) (u : string) (day : Z)
    (log : list Message) : nat :=
  length (filter (fun m => visitedOn offset u day m = true) log).

(** A log in which every [SITE_VISITED] comes after a [CHECK_URL_MATCH]
    for the same URL. *)
Inductive checkedFirst : list Message -> Prop :=
| checked_nil : checkedFirst []
| checked_check log u :
    checkedFirst log -> checkedFirst (log ++ [checkUrlMatch u])
| checked_visit log u pg :
    checkedFirst log -> checkUrlMatch u ∈ log ->
    checkedFirst (log ++ [siteVisited u pg]).

(** The page an event finds. *)
Definition eventPage (e : Event) : Page :=
  match e with
  | Initialize pg _ => pg
  | UrlChange pg => pg
  | TimerFired pg _ => pg
  | VisibilityChange pg _ => pg
  end.

End Content.

(* ===================================================================== *)
(** * docs/messaging.md: the background listener and the handler pattern *)
(* ===================================================================== *)

Module Listener.
Import Js Types.

(** A value a promise is rejected with, as far as reading its [message]
    tells values apart: an [Error] (any object with a string [message]),
    [undefined] or [null], or a value without a [message], such as a
    thrown string. *)
Inductive Thrown :=
| ThrownError (e : Error)
| ThrownNullish
| ThrownOther.

(** A settled promise. *)
Inductive Settled (A : Type) : Type :=
| Fulfilled (a : A)
| Rejected (v : Thrown).
Arguments Fulfilled {A} a.
Arguments Rejected {A} v.

(** An asynchronous computation over a state [S]: when it settles it
    has left the state changed. *)
Definition Task (S A : Type) : Type := S -> Settled A * S.

(** [p.then(onFulfilled)] *)
Definition then_ {S A B} (p : Task S A) (onFulfilled : A -> Task S B) : Task S B :=
  fun s =>
    match p s with
    | (Fulfilled a, s') => onFulfilled a s'
    | (Rejected v, s') => (Rejected v, s')
    end.

(** [p.catch(onRejected)] *)
Definition catch_ {S A} (p : Task S A) (onRejected : Thrown -> Task S A) : Task S A :=
  fun s =>
    match p s with
    | (Fulfilled a, s') => (Fulfilled a, s')
    | (Rejected v, s') => onRejected v s'
    end.

(** [error.message]: the message of an [Error], [undefined] on a value
    that has none, a [TypeError] on [undefined] and [null]. *)
Definition messageOf (error : Thrown) : Settled (option string) :=
  match error with
  | ThrownError e => Fulfilled (Some (Js.message e))
  | ThrownOther => Fulfilled None
  | ThrownNullish =>
      Rejected (ThrownError
        {| Js.message := "Cannot read properties of undefined (reading 'message')" |})
  end.

Section OnMessage.
Context {T : Type}.

(** The message port back to the caller: the responses handed to
    [sendResponse], in order. *)
Definition Port : Type := list (MessageResponse T).

(** [handleMessage(message, sender)], as the promise it returns once
    settled. *)
Variable handleMessage : Message -> Settled (MessageResponse T).

Definition sendResponse (response : MessageResponse T) : Task Port unit :=
  fun port => (Fulfilled tt, port ++ [response]).

(** The promise chain the listener starts:
    [handleMessage(message, sender).then(sendResponse).catch(...)]. *)
Definition chain (message : Message) : Task Port unit :=
  catch_
    (then_ (fun port => (handleMessage message, port)) sendResponse)
    (fun error port =>
       match messageOf error with
       | Fulfilled msg =>
           sendResponse {| success := false; data := None; error := msg |} port
       | Rejected v => (Rejected v, port)
       end).

(** The listener returns [true] (the response is asynchronous) and
    leaves the chain to settle. *)
Definition onMessage (message : Message) : bool * Task Port unit :=
  (true, chain message).

(** What the caller observes for one message: how the chain settles and
    the responses delivered on a fresh port. *)
Definition deliver (message : Message) : Settled unit * Port :=
  snd (onMessage message) [].

End OnMessage.

(** The handler pattern, after [handleGetSites]:
    [try { const v = await op(); return { success: true, data: v } }
     catch (error) { return { success: false, error: error.message } }]. *)
Definition handler {T} (op : Completion (option T)) : MessageResponse T :=
  match op with
  | Normal v => {| success := true; data := v; error := None |}
  | Throw e => {| success := false; data := None; error := Some (Js.message e) |}
  end.

Definition handleGetSites (getSites : Completion (list Site))
  : MessageResponse (list Site) :=
  handler (bind getSites (fun sites => Normal (Some sites))).

End Listener.

(* ===================================================================== *)
(** * The theme hook: what [loadTheme] applies *)
(* ===================================================================== *)

Module ThemeHook.
Import Js Types.

(** [chrome.storage.sync.get('settings')] throws, or yields
    [result.settings as Settings | undefined]. [loadTheme] applies
    [settings?.theme || 'system'], and ['system'] when storage fails. *)
Definition loadTheme (storage : Completion (option Settings)) : Theme :=
  match storage with
  | Normal (Some settings) => theme settings
  | Normal None => system
  | Throw _ => system
  end.

End ThemeHook.

(* ===================================================================== *)
(** * The background coordinator *)
(* ===================================================================== *)

Module Background.
Import Js Types Calendar.
Local Open Scope Z_scope.

(** Modelled from the spec: the Store (the storage layer is an external
    collaborator whose code is missing). It holds the site collection in
    insertion order and the singleton settings record, if one was
    persisted; every access fails with a StoreError while the store is
    not [available]. *)
Record Store := mkStore {
  sites : list Site;
  settings : option Settings;
  available : bool;
}.

(** Modelled from the spec: an alarm of the host (the alarm API is
    missing): the time of its next trigger, and its period when it is
    recurring. *)
Record Alarm := mkAlarm {
  scheduledTime : Z;
  periodInMinutes : option Z;
}.

(** Modelled from the spec: the state the background worker acts on (the
    worker is missing): the Store and the host's alarms by name. *)
Record Backend := mkBackend {
  store : Store;
  alarms : gmap string Alarm;
}.

(** Modelled from the spec: what a handler reads from its environment
    (missing with the worker): the clock, the local time zone's offset,
    a freshly generated id, and the configured snooze delay. *)
Record Env := mkEnv {
  env_now : Z;
  env_offset : Z;
  env_newId : string;
  env_snoozeMinutes : Z;
}.

(** Modelled from the spec: the ValidationError of the taxonomy (the
    handlers are missing). *)
Definition ValidationError (what : string) : Error :=
  {| message := String.append "ValidationError: " what |}.

(** Modelled from the spec: the NotFoundError of the taxonomy (the handlers
    are missing). *)
Definition NotFoundError (siteId : string) : Error :=
  {| message := String.append "NotFoundError: " siteId |}.

(** Modelled from the spec: the StoreError of the taxonomy (the storage layer
    is missing). *)
Definition StoreError : Error :=
  {| message := "StoreError: storage is unavailable" |}.

(** Modelled from the spec: [get] on the sites key (the storage layer is
    missing). *)
Definition getSites (s : Store) : Completion (list Site) :=
  if available s then Normal (sites s) else Throw StoreError.

(** Modelled from the spec: [set] on the sites key (the storage layer is
    missing): one write of the whole collection. *)
Definition setSites (s : Store) (l : list Site) : Completion Store :=
  if available s then
    Normal {| sites := l; settings := settings s; available := available s |}
  else Throw StoreError.

(** Modelled from the spec: [get] on the settings key (the storage layer is
    missing), with the defaults when nothing is persisted. *)
Definition getSettings (s : Store) : Completion Settings :=
  if available s then Normal (default DEFAULT_SETTINGS (settings s))
  else Throw StoreError.

(** Modelled from the spec: [set] on the settings key (the storage layer is
    missing). *)
Definition setSettings (s : Store) (v : Settings) : Completion Store :=
  if available s then
    Normal {| sites := sites s; settings := Some v; available := available s |}
  else Throw StoreError.

(** ** Site Matcher *)

(** Modelled from the spec: cutting a URL at its fragment or query (the
    matcher is missing). *)
Fixpoint cutAt (c : ascii) (s : string) : string :=
  match s with
  | EmptyString => EmptyString
  | String a s' => if Ascii.eqb a c then EmptyString else String a (cutAt c s')
  end.

(** Modelled from the spec: whether a saved URL specifies a query or a
    fragment (the matcher is missing). *)
Fixpoint hasChar (c : ascii) (s : string) : bool :=
  match s with
  | EmptyString => false
  | String a s' => Ascii.eqb a c || hasChar c s'
  end.

(** Modelled from the spec: stripping the trailing slash (the matcher is
    missing). *)
Fixpoint stripTrailingSlash (s : string) : string :=
  match s with
  | EmptyString => EmptyString
  | String a s' =>
      match s' with
      | EmptyString => if Ascii.eqb a "/"%char then EmptyString else s
      | _ => String a (stripTrailingSlash s')
      end
  end.

(** Modelled from the spec: the normal form of a candidate URL relative to a
    saved one (the matcher is missing): the fragment and the query are cut
    unless the saved URL specifies them, then one trailing slash is
    stripped. *)
Definition normalizeFor (saved candidate : string) : string :=
  stripTrailingSlash
    (if hasChar "#"%char saved then candidate
     else if hasChar "?"%char saved then cutAt "#"%char candidate
     else cutAt "?"%char (cutAt "#"%char candidate)).

(** Modelled from the spec: origin and path equality after normalization
    (the matcher is missing). *)
Definition sameLocation (saved candidate : string) : bool :=
  String.eqb (normalizeFor saved saved) (normalizeFor saved candidate).

(** Modelled from the spec: the schemes the matcher accepts (the matcher
    is missing). *)
Definition isHttpScheme (u : string) : bool :=
  String.prefix "http://" u || String.prefix "https://" u.

(** Modelled from the spec: the Site Matcher's tie-break (the matcher is
    missing): the first saved site, in insertion order, whose URL is the
    same location wins. *)
Definition findSite (l : list Site) (u : string) : option Site :=
  List.find (fun s => sameLocation (url s) u) l.

(** Modelled from the spec: the Site Matcher's lookup (the matcher is
    missing): other schemes than http(s) are rejected before matching,
    without the Store being read. *)
Definition matchSite (st : Store) (u : string) : Completion (option Site) :=
  if isHttpScheme u then bind (getSites st) (fun l => Normal (findSite l u))
  else Normal None.

(** Modelled from the spec: the derived daily status (missing with the
    matcher): the last visit falls on the current local day. *)
Definition visitedToday (env : Env) (s : Site) : bool :=
  match lastVisitedAt s with
  | Some t => Z.eqb (localDay (env_offset env) t) (localDay (env_offset env) (env_now env))
  | None => false
  end.

(** Modelled from the spec: the result of the Site Matcher for a URL that
    matches no site (the matcher is missing). *)
Definition noMatch : UrlMatchResult :=
  {| matched := false; siteId := None; siteName := None;
     alreadyVisitedToday := None |}.

(** Modelled from the spec: the Site Matcher's contract
    [match(url) -> {matched, siteId?, siteName?, alreadyVisitedToday?}]
    (the matcher is missing); it only reads the Store. *)
Definition matchUrl (env : Env) (st : Store) (u : string) : Completion UrlMatchResult :=
  bind (matchSite st u) (fun found =>
    Normal
      match found with
      | Some s =>
          {| matched := true; siteId := Some (id s); siteName := Some (title s);
             alreadyVisitedToday := Some (visitedToday env s) |}
      | None => noMatch
      end).

(** ** Visit Recorder *)

(** Modelled from the spec: the later of two last-visit timestamps (the
    recorder is missing): a timestamp that is set stays set and does not
    go back. *)
Definition later (a b : option Z) : option Z :=
  match a, b with
  | Some x, Some y => Some (Z.max x y)
  | Some x, None => Some x
  | None, o => o
  end.

(** Modelled from the spec: the effect of one visit on a site record
    (the recorder is missing): the count goes up by one and the last
    visit becomes the visit's timestamp, unless the record already holds a
    later one ([lastVisitedAt] is non-decreasing once set). *)
Definition visit (t : Z) (s : Site) : Site :=
  {| id := id s; url := url s; title := title s; favicon := favicon s;
     notes := notes s; tags := tags s; createdAt := createdAt s;
     lastVisitedAt := later (lastVisitedAt s) (Some t);
     visitCount := visitCount s + 1 |}.

(** Modelled from the spec: a visited record landing on the stored one
    (the recorder is missing): [visitCount] and [lastVisitedAt] are
    written together and neither goes backward, whatever was stored in
    the meantime. *)
Definition mergeSite (stored written : Site) : Site :=
  {| id := id stored; url := url stored; title := title stored;
     favicon := favicon stored; notes := notes stored; tags := tags stored;
     createdAt := createdAt stored;
     lastVisitedAt := later (lastVisitedAt stored) (lastVisitedAt written);
     visitCount := Z.max (visitCount stored) (visitCount written) |}.

(** Modelled from the spec: the composite write of a visited record into
    the collection, by id (the recorder is missing). *)
Definition writeSite (written : Site) (l : list Site) : list Site :=
  map (fun s => if String.eqb (id s) (id written) then mergeSite s written else s) l.

(** Modelled from the spec: the lookup of a site by id (the handlers are
    missing). *)
Definition findById (target : string) (l : list Site) : option Site :=
  List.find (fun s => String.eqb (id s) target) l.

(** Modelled from the spec: the data a response envelope of the router
    carries (the handlers are missing). *)
Inductive Data :=
| DSites (l : list Site)
| DSite (s : Site)
| DNull
| DSettings (s : Settings)
| DMatch (r : UrlMatchResult).

(** Modelled from the spec: [recordVisit(siteId, manual)] of the
    Visit Recorder (missing): not-found when the id is absent. *)
Definition recordManual (env : Env) (st : Store) (siteId : string)
  : Completion (option Data * Store) :=
  bind (getSites st) (fun l =>
    match findById siteId l with
    | None => Throw (NotFoundError siteId)
    | Some s =>
        bind (setSites st (writeSite (visit (env_now env) s) l)) (fun st' =>
          Normal (Some (DSite (visit (env_now env) s)), st'))
    end).

(** Modelled from the spec: [recordVisit(url, auto)] of the Visit
    Recorder (missing): the matcher is run again, and a vanished site
    is a no-op that yields null. *)
Definition recordAuto (st : Store) (p : SiteVisitedPayload)
  : Completion (option Data * Store) :=
  bind (matchSite st (sv_url p)) (fun found =>
    match found with
    | None => Normal (Some DNull, st)
    | Some s =>
        bind (getSites st) (fun l =>
        bind (setSites st (writeSite (visit (sv_timestamp p) s) l)) (fun st' =>
          Normal (Some (DSite (visit (sv_timestamp p) s)), st')))
    end).

(** ** Reminder Scheduler *)

(** Modelled from the spec: an alarm is the scheduler's when its name carries
    the reminder prefix (the scheduler is missing; the prefix is in the
    sources). *)
Definition isReminderAlarm (name : string) : bool :=
  String.prefix DAILY_REMINDER_PREFIX name.

(** Modelled from the spec: the name of the alarm of a configured time (the
    scheduler is missing). *)
Definition reminderName (hhmm : string) : string :=
  String.append DAILY_REMINDER_PREFIX hhmm.

(** Modelled from the spec: a digit of an [HH:MM] time (the scheduler is
    missing). *)
Definition digitOf (a : ascii) : Z := Z.of_nat (nat_of_ascii a) - 48.

(** Modelled from the spec: an [HH:MM] time as minutes of the day (the
    scheduler is missing). *)
Definition minutesOfDay (hhmm : string) : Z :=
  match hhmm with
  | String h1 (String h2 (String _ (String m1 (String m2 _)))) =>
      (digitOf h1 * 10 + digitOf h2) * 60 + (digitOf m1 * 10 + digitOf m2)
  | _ => 0
  end.

(** Modelled from the spec: the next future occurrence of a wall-clock time,
    tomorrow when it has passed today (the scheduler is missing). *)
Definition nextOccurrence (env : Env) (minutes : Z) : Z :=
  let midnight := localDay (env_offset env) (env_now env) * msPerDay - env_offset env in
  let today := midnight + minutes * 60000 in
  if Z.ltb (env_now env) today then today else today + msPerDay.

(** Modelled from the spec: the period of a daily recurring alarm (the
    scheduler is missing). *)
Definition minutesPerDay : Z := 1440.

(** Modelled from the spec: the recurring alarm of a configured time (the
    scheduler is missing). *)
Definition reminderAlarm (env : Env) (hhmm : string) : Alarm :=
  {| scheduledTime := nextOccurrence env (minutesOfDay hhmm);
     periodInMinutes := Some minutesPerDay |}.

(** Modelled from the spec: the scheduler's first step (the scheduler is
    missing): cancel every alarm under the reminder prefix. *)
Definition clearReminders (m : gmap string Alarm) : gmap string Alarm :=
  filter (fun kv => isReminderAlarm kv.1 = false) m.

(** Modelled from the spec: registering the alarm of one configured time;
    a name registered twice holds one alarm (the scheduler is missing). *)
Definition createReminder (env : Env) (m : gmap string Alarm) (hhmm : string)
  : gmap string Alarm :=
  <[ reminderName hhmm := reminderAlarm env hhmm ]> m.

(** Modelled from the spec: the scheduler's reconciliation (missing):
    cancel, then, if reminders are enabled, create. *)
Definition reconcile (env : Env) (r : ReminderConfig) (m : gmap string Alarm)
  : gmap string Alarm :=
  let cleared := clearReminders m in
  if enabled r then fold_left (createReminder env) (times r) cleared
  else cleared.

(** Modelled from the spec: the daily-reset alarm, after local midnight (the
    scheduler is missing). *)
Definition dailyResetAlarm (env : Env) : Alarm :=
  {| scheduledTime := nextOccurrence env 0;
     periodInMinutes := Some minutesPerDay |}.

(** Modelled from the spec: a cold start of the worker (missing): the
    schedule is derived again from the persisted settings, and the
    daily-reset alarm is registered. A failing store leaves the alarms
    as they are. *)
Definition coldStart (env : Env) (b : Backend) : Backend :=
  match getSettings (store b) with
  | Normal s =>
      {| store := store b;
         alarms := <[ DAILY_RESET := dailyResetAlarm env ]>
                     (reconcile env (reminder s) (alarms b)) |}
  | Throw _ => b
  end.

(** ** Settings *)

(** Modelled from the spec: the merge of a partial reminder
    configuration (the settings handler is missing). *)
Definition mergeReminder (r : ReminderConfig) (p : PartialReminder) : ReminderConfig :=
  {| enabled := default (enabled r) (p_enabled p);
     times := default (times r) (p_times p) |}.

(** Modelled from the spec: the deep merge of partial settings, [reminder]
    field by field (the settings handler is missing). *)
Definition mergeSettings (s : Settings) (p : PartialSettings) : Settings :=
  {| theme := default (theme s) (p_theme p);
     reminder :=
       match p_reminder p with
       | Some pr => mergeReminder (reminder s) pr
       | None => reminder s
       end;
     autoDetectVisits := default (autoDetectVisits s) (p_autoDetectVisits p);
     notificationsEnabled :=
       default (notificationsEnabled s) (p_notificationsEnabled p) |}.

(** ** Notification Dispatcher *)

(** Modelled from the spec: the actions behind the notification buttons
    (the dispatcher is missing). *)
Inductive NotificationAction :=
| ViewList
| Snooze
| MarkCheckedIn (siteId : string)
| VisitedOnly.

(** Modelled from the spec: the site id a site-visit notification id carries
    after its prefix (the dispatcher is missing). *)
Definition dropPrefix (p s : string) : string :=
  String.substring (String.length p) (String.length s - String.length p) s.

(** Modelled from the spec: the closed, ordered table from button index
    to action, per notification family (the dispatcher is missing);
    indices out of range decode to nothing. *)
Definition decodeAction (p : NotificationActionPayload) : option NotificationAction :=
  if String.eqb (notificationId p) CHECKIN_REMINDER then
    match buttonIndex p with
    | 0 => Some ViewList
    | 1 => Some Snooze
    | _ => None
    end
  else if String.prefix SITE_VISIT_PREFIX (notificationId p) then
    match buttonIndex p with
    | 0 => Some (MarkCheckedIn
                   (default (dropPrefix SITE_VISIT_PREFIX (notificationId p))
                            (na_siteId p)))
    | 1 => Some VisitedOnly
    | _ => None
    end
  else None.

(** Modelled from the spec: the name of the one-shot alarm a snooze
    registers (the dispatcher is missing). *)
Definition SNOOZE_ALARM : string := "snooze".

(** Modelled from the spec: the one-shot alarm a snooze registers, the
    configured minutes from now (the dispatcher is missing). *)
Definition snoozeAlarm (env : Env) : Alarm :=
  {| scheduledTime := env_now env + env_snoozeMinutes env * 60000;
     periodInMinutes := None |}.

(** ** Message Router *)

(** Modelled from the spec: a request as it arrives at the router (the
    router is missing): the type is whatever string the sender wrote. *)
Record Request := mkRequest {
  req_type : string;
  req_payload : option Payload;
}.

(** Modelled from the spec: a typed message on the wire (the router is
    missing). *)
Definition requestOf (m : Message) : Request :=
  {| req_type := literal (type m); req_payload := payload m |}.

(** Modelled from the spec: a handler that acts on the Store only (the
    handlers are missing). *)
Definition onStore (b : Backend) (c : Completion (option Data * Store))
  : Completion (option Data * Backend) :=
  bind c (fun '(d, st) =>
    Normal (d, {| store := st; alarms := alarms b |})).

(** Modelled from the spec: merging partial fields into a site, for
    [UPDATE_SITE] (the handler is missing). *)
Definition applyUpdates (u : SiteUpdates) (s : Site) : Site :=
  {| id := id s;
     url := default (url s) (u_url u);
     title := default (title s) (u_title u);
     favicon := favicon s;
     notes := match u_notes u with Some n => Some n | None => notes s end;
     tags := tags s; createdAt := createdAt s;
     lastVisitedAt := lastVisitedAt s; visitCount := visitCount s |}.

(** Modelled from the spec: clearing the derived daily status by nulling the
    timestamp, for [RESET_ALL_STATUS] (the handler is missing). *)
Definition resetStatus (s : Site) : Site :=
  {| id := id s; url := url s; title := title s; favicon := favicon s;
     notes := notes s; tags := tags s; createdAt := createdAt s;
     lastVisitedAt := None; visitCount := visitCount s |}.

(** Modelled from the spec: the site [SAVE_SITE] creates: a generated id,
    the creation time, no visit (the handler is missing). *)
Definition newSite (env : Env) (u t : string) : Site :=
  {| id := env_newId env; url := u; title := t; favicon := None;
     notes := None; tags := None; createdAt := env_now env;
     lastVisitedAt := None; visitCount := 0 |}.

(** Modelled from the spec: the handlers behind the router (the worker
    is missing), each as the body of its [try] block: the response data
    and the state it leaves, or the error it throws. *)
Definition dispatch (env : Env) (b : Backend) (t : MessageType)
    (p : option Payload) : Completion (option Data * Backend) :=
  let st := store b in
  match t, p with
  | GET_SITES, _ =>
      bind (getSites st) (fun l => Normal (Some (DSites l), b))
  | SAVE_SITE, Some (PAddSite u ttl) =>
      if isHttpScheme u then
        onStore b
          (bind (getSites st) (fun l =>
           let s := newSite env u ttl in
           bind (setSites st (l ++ [s])) (fun st' => Normal (Some (DSite s), st'))))
      else Throw (ValidationError "url is missing or malformed")
  | SAVE_SITE, _ => Throw (ValidationError "url is missing or malformed")
  | UPDATE_SITE, Some (PUpdateSite siteId u) =>
      onStore b
        (bind (getSites st) (fun l =>
         match findById siteId l with
         | None => Throw (NotFoundError siteId)
         | Some s =>
             bind (setSites st
                     (map (fun x => if String.eqb (id x) siteId
                                    then applyUpdates u x else x) l))
                  (fun st' => Normal (Some (DSite (applyUpdates u s)), st'))
         end))
  | UPDATE_SITE, _ => Throw (ValidationError "id and updates are required")
  | DELETE_SITE, Some (PSiteId siteId) =>
      onStore b
        (bind (getSites st) (fun l =>
         bind (setSites st
                 (List.filter (fun x => negb (String.eqb (id x) siteId)) l))
              (fun st' => Normal (None, st'))))
  | DELETE_SITE, _ => Throw (ValidationError "site id is required")
  | MARK_VISITED, Some (PSiteId siteId)
  | MARK_CHECKED_IN, Some (PSiteId siteId) =>
      onStore b (recordManual env st siteId)
  | MARK_VISITED, _
  | MARK_CHECKED_IN, _ => Throw (ValidationError "site id is required")
  | SITE_VISITED, Some (PSiteVisited v) =>
      onStore b (recordAuto st v)
  | SITE_VISITED, _ => Throw (ValidationError "visit payload is required")
  | CHECK_URL_MATCH, Some (PUrl u) =>
      bind (matchUrl env st u) (fun r => Normal (Some (DMatch r), b))
  | CHECK_URL_MATCH, _ => Throw (ValidationError "url is required")
  | GET_SETTINGS, _ =>
      bind (getSettings st) (fun s => Normal (Some (DSettings s), b))
  | UPDATE_SETTINGS, Some (PSettings partial) =>
      bind (getSettings st) (fun s =>
      let merged := mergeSettings s partial in
      bind (setSettings st merged) (fun st' =>
      Normal (Some (DSettings merged),
              {| store := st';
                 alarms :=
                   match p_reminder partial with
                   | Some _ => reconcile env (reminder merged) (alarms b)
                   | None => alarms b
                   end |})))
  | UPDATE_SETTINGS, _ => Throw (ValidationError "settings are required")
  | CLEAR_ALL_SITES, _ =>
      onStore b (bind (setSites st []) (fun st' => Normal (None, st')))
  | RESET_ALL_STATUS, _ =>
      onStore b
        (bind (getSites st) (fun l =>
         let l' := map resetStatus l in
         bind (setSites st l') (fun st' => Normal (Some (DSites l'), st'))))
  | NOTIFICATION_ACTION, Some (PNotificationAction a) =>
      match decodeAction a with
      | Some (MarkCheckedIn siteId) => onStore b (recordManual env st siteId)
      | Some Snooze =>
          Normal (None, {| store := st;
                           alarms := <[ SNOOZE_ALARM := snoozeAlarm env ]> (alarms b) |})
      | Some ViewList | Some VisitedOnly | None => Normal (None, b)
      end
  | NOTIFICATION_ACTION, _ => Throw (ValidationError "notification payload is required")
  | OPEN_POPUP, _ => Normal (None, b)
  end.

(** Modelled from the spec: the router's [handle(request) -> response]
    (the worker is missing): a lookup from the message type to its
    handler; unknown types and handler failures become the failure
    envelope, and a failed handler leaves the state as it was. *)
Definition handle (env : Env) (b : Backend) (req : Request)
  : MessageResponse Data * Backend :=
  match asMessageType (req_type req) with
  | None =>
      ({| success := false; data := None;
          error := Some (String.append "Unknown message type: " (req_type req)) |}, b)
  | Some t =>
      match dispatch env b t (req_payload req) with
      | Normal (d, b') => ({| success := true; data := d; error := None |}, b')
      | Throw e => ({| success := false; data := None; error := Some (message e) |}, b)
      end
  end.

(** Modelled from the spec: the router as the listener's [handleMessage]
    (the worker is missing); its handlers never reject. *)
Definition handleMessage (env : Env) (b : Backend) (m : Message)
  : Listener.Settled (MessageResponse Data) :=
  Listener.Fulfilled (fst (handle env b (requestOf m))).

(** Modelled from the spec: the worker serving requests one after the other,
    each in the environment it arrives in (the worker is missing). *)
Definition serve (b : Backend) (reqs : list (Env * Request)) : Backend :=
  fold_left (fun b' er => snd (handle (fst er) b' (snd er))) reqs b.

(** The two visit operations, as requests. *)
Inductive VisitOp :=
| MarkVisited (siteId : string)
| SiteVisited (p : SiteVisitedPayload).

Definition visitRequest (op : VisitOp) : Request :=
  match op with
  | MarkVisited siteId =>
      {| req_type := "MARK_VISITED"; req_payload := Some (PSiteId siteId) |}
  | SiteVisited p =>
      {| req_type := "SITE_VISITED"; req_payload := Some (PSiteVisited p) |}
  end.

Definition visits (b : Backend) (ops : list (Env * VisitOp)) : Backend :=
  serve b (map (fun eo => (fst eo, visitRequest (snd eo))) ops).

(** Modelled from the spec: the record a visit operation plans to write,
    computed from the collection as it reads it (the recorder is
    missing); nothing when the site is not found. *)
Definition planned (l : list Site) (eo : Env * VisitOp) : option Site :=
  match snd eo with
  | MarkVisited siteId => option_map (visit (env_now (fst eo))) (findById siteId l)
  | SiteVisited p =>
      if isHttpScheme (sv_url p)
      then option_map (visit (sv_timestamp p)) (findSite l (sv_url p))
      else None
  end.

(** Modelled from the spec: visit operations that race (the recorder is
    missing): an operation reads the collection and plans its record; its
    write lands later, after any number of other reads and writes. The
    state is the stored collection and the records in flight. *)
Inductive RaceStep :=
| Reads (eo : Env * VisitOp)
| Lands (i : nat).

Definition raceStep (st : list Site * list Site) (a : RaceStep)
  : list Site * list Site :=
  match a with
  | Reads eo => (fst st, snd st ++ option_list (planned (fst st) eo))
  | Lands i =>
      match snd st !! i with
      | Some written => (writeSite written (fst st), snd st)
      | None => st
      end
  end.

Definition races (l : list Site) (steps : list RaceStep) : list Site :=
  fst (fold_left raceStep steps (l, [])).



Definition updateSettings (partial : PartialSettings) : Request :=
  {| req_type := "UPDATE_SETTINGS"; req_payload := Some (PSettings partial) |}.

(** The alarms under the reminder prefix. *)
Definition reminders (m : gmap string Alarm) : gmap string Alarm :=
  filter (fun kv => isReminderAlarm kv.1 = true) m.

End Background.

(* ===================================================================== *)
(** * Scenarios *)
(* ===================================================================== *)

Module Scenarios.
Import Js Types Content.

Definition urlA : string := "https://a.example/check".
Definition urlB : string := "https://a.example/other".

Definition pageA (t : Z) : Page :=
  {| href := urlA; docTitle := "A"; now := t; visible := true |}.
Definition pageB (t : Z) : Page :=
  {| href := urlB; docTitle := "B"; now := t; visible := true |}.

Definition siteA : Site :=
  {| id := "s1"; url := urlA; title := "A"; favicon := None; notes := None;
     tags := None; createdAt := 0; lastVisitedAt := None; visitCount := 0 |}.

(** The matcher reports the saved site, not yet visited today. *)
Definition matchedFresh : ChannelResult UrlMatchResult :=
  Normal (Some {| success := true;
                  data := Some {| matched := true; siteId := Some "s1";
                                  siteName := Some "A";
                                  alreadyVisitedToday := Some false |};
                  error := None |}).

Definition notMatched : ChannelResult UrlMatchResult :=
  Normal (Some {| success := true;
                  data := Some {| matched := false; siteId := None;
                                  siteName := None;
                                  alreadyVisitedToday := None |};
                  error := None |}).

(** The recorder answers with the updated site, or fails on the store. *)
Definition recorded : ChannelResult Site :=
  Normal (Some {| success := true; data := Some siteA; error := None |}).

Definition storeFailed : ChannelResult Site :=
  Normal (Some {| success := false; data := None;
                  error := Some "StoreError: storage is unavailable" |}).

(** The page loads on A (the visit is sent, the store fails to record
    it), the application navigates to B and back to A. *)
Definition thereAndBack : list Event :=
  [ Initialize (pageA 1000) {| matchReply := matchedFresh; visitReply := storeFailed |};
    UrlChange (pageB 2000);
    TimerFired (pageB 2500) {| matchReply := notMatched; visitReply := recorded |};
    UrlChange (pageA 3000);
    TimerFired (pageA 3500) {| matchReply := matchedFresh; visitReply := recorded |} ].

(** The page loads on A and the tab becomes visible while the first
    [CHECK_URL_MATCH] is still pending: both runs are answered before
    either visit is recorded. *)
Definition tabSwitch : list Action :=
  [ Call (pageA 1000);
    Call (pageA 1001);
    SettleMatch 0 (pageA 1002) matchedFresh;
    SettleMatch 1 (pageA 1003) matchedFresh;
    SettleVisit 0 recorded;
    SettleVisit 1 recorded ].

(** Events that all find A: load, a visibility change, a replaced
    history entry, another visibility change. *)
Definition stayOnA : list Event :=
  [ Initialize (pageA 1000) {| matchReply := matchedFresh; visitReply := recorded |};
    VisibilityChange (pageA 2000) {| matchReply := matchedFresh; visitReply := recorded |};
    UrlChange (pageA 3000);
    VisibilityChange (pageA 4000) {| matchReply := matchedFresh; visitReply := recorded |} ].

Definition env0 : Background.Env :=
  {| Background.env_now := 1000; Background.env_offset := 0;
     Background.env_newId := "s2"; Background.env_snoozeMinutes := 10 |}.

Definition staleAlarm : Background.Alarm :=
  {| Background.scheduledTime := 500; Background.periodInMinutes := Some 1440%Z |}.

(** A worker that wakes up with site A saved, no settings persisted, and
    two alarms left over from an earlier life. *)
Definition backend0 : Background.Backend :=
  {| Background.store :=
       {| Background.sites := [siteA]; Background.settings := None;
          Background.available := true |};
     Background.alarms :=
       <[ "reminder-08:00" := staleAlarm ]>
         (<[ "daily-reset" := staleAlarm ]> ∅) |}.

Definition remindAtNine : PartialSettings :=
  {| p_theme := None;
     p_reminder := Some {| p_enabled := Some true; p_times := Some ["09:00"] |};
     p_autoDetectVisits := None; p_notificationsEnabled := None |}.

Definition remindersOff : PartialSettings :=
  {| p_theme := None;
     p_reminder := Some {| p_enabled := Some false; p_times := None |};
     p_autoDetectVisits := None; p_notificationsEnabled := None |}.

(** A manual visit, then a detected one later the same day. *)
Definition twoVisits : list (Background.Env * Background.VisitOp) :=
  [ (env0, Background.MarkVisited "s1");
    ({| Background.env_now := 2100; Background.env_offset := 0;
        Background.env_newId := "s3"; Background.env_snoozeMinutes := 10 |},
     Background.SiteVisited
       {| sv_url := urlA; sv_title := "A"; sv_timestamp := 2000 |}) ].

(** Two detected visits from two tabs: the page that read its clock first
    is served last. *)
Definition lateArrival : list (Background.Env * Background.VisitOp) :=
  [ ({| Background.env_now := 2100; Background.env_offset := 0;
        Background.env_newId := "s3"; Background.env_snoozeMinutes := 10 |},
     Background.SiteVisited
       {| sv_url := urlA; sv_title := "A"; sv_timestamp := 2000 |});
    ({| Background.env_now := 2200; Background.env_offset := 0;
        Background.env_newId := "s4"; Background.env_snoozeMinutes := 10 |},
     Background.SiteVisited
       {| sv_url := urlA; sv_title := "A"; sv_timestamp := 1000 |}) ].

(** The same two visits racing: both read the collection before either
    write lands, and the later reading lands first. *)
Definition twoRacing : list Background.RaceStep :=
  [ Background.Reads (env0, Background.SiteVisited
      {| sv_url := urlA; sv_title := "A"; sv_timestamp := 1000 |});
    Background.Reads (env0, Background.SiteVisited
      {| sv_url := urlA; sv_title := "A"; sv_timestamp := 2000 |});
    Background.Lands 1;
    Background.Lands 0 ].

End Scenarios.

(* ===================================================================== *)
(** * content/index.ts: reading the log of sent messages *)
(* ===================================================================== *)

Module Detector.
Import Js Types Content.

(** [u.startsWith('http://') || u.startsWith('https://')] *)
Definition isHttp (u : string) : bool :=
  String.prefix "http://" u || String.prefix "https://" u.

(** The URL a message of the content script carries. *)
Definition messageUrl (m : Message) : option string :=
  match payload m with
  | Some (PUrl u) => Some u
  | Some (PSiteVisited p) => Some (sv_url p)
  | _ => None
  end.

Definition countCheckUrlMatch (log : list Message) : nat :=
  length (filter (fun m => isCheckUrlMatch m = true) log).

(** The runs of a pool that wait for their [CHECK_URL_MATCH]. *)
Fixpoint pendingMatches (runs : list (option Suspended)) : nat :=
  match runs with
  | [] => 0
  | Some (AwaitingMatch _) :: runs' => S (pendingMatches runs')
  | _ :: runs' => pendingMatches runs'
  end.

(** A reply to [CHECK_URL_MATCH] that carries no match: anything but a
    success envelope whose data has [matched] true. *)
Definition unmatched (c : ChannelResult UrlMatchResult) : Prop :=
  forall resp res,
    c = Normal (Some resp) -> success resp = true -> data resp = Some res ->
    matched res = false.

(** A reply to [CHECK_URL_MATCH] that carries a match. *)
Definition matchedReply (c : ChannelResult UrlMatchResult) : Prop :=
  exists resp res,
    c = Normal (Some resp) /\ success resp = true /\ data resp = Some res
    /\ matched res = true.

(** A message the script sends on a page: the page has an http(s) URL
    and the message is the check or the visit for it. *)
Definition sentOn (pg : Page) (m : Message) : Prop :=
  isHttp (href pg) = true
  /\ (m = checkUrlMatch (href pg) \/ m = siteVisited (href pg) pg).

(** The tab becomes visible, once per pair of a page and the replies to
    the run it starts. *)
Definition tabShown (runs : list (Page * Replies)) : list Event :=
  map (fun pr => VisibilityChange (fst pr) (snd pr)) runs.

End Detector.

(* ===================================================================== *)
(** * docs/messaging.md: the clients of the usage examples *)
(* ===================================================================== *)

Module Clients.
Import Js Types.

(** Reading a property of [undefined] throws a [TypeError]. *)
Definition TypeError (property : string) : Error :=
  {| message := String.append "Cannot read properties of undefined (reading '"
                  (String.append property "')") |}.

(** [s || fallback] on an optional string: [undefined] and the empty
    string are falsy. *)
Definition stringOr (s : option string) (fallback : string) : string :=
  match s with
  | Some v => if String.eqb v "" then fallback else v
  | None => fallback
  end.

(** [new Error(message)] with an optional message: [undefined] gives the
    empty message. *)
Definition newError (msg : option string) : Error :=
  {| message := match msg with Some v => v | None => "" end |}.

(** [loadSites()]: the awaited [chrome.runtime.sendMessage] throws, or
    resolves to [undefined] or to an envelope;
    [if (response.success && response.data) return response.data;
     throw new Error(response.error || 'Failed to load sites')].
    An array, empty or not, is truthy. *)
Definition loadSites (channel : Content.ChannelResult (list Site))
  : Completion (list Site) :=
  bind channel (fun response =>
    match response with
    | None => Throw (TypeError "success")
    | Some r =>
        match success r, data r with
        | true, Some sites => Normal sites
        | _, _ => Throw (newError (Some (stringOr (error r) "Failed to load sites")))
        end
    end).

(** [saveSite(url, title)]:
    [if (!response.success) throw new Error(response.error);
     return response.data]. *)
Definition saveSite (channel : Content.ChannelResult Site)
  : Completion (option Site) :=
  bind channel (fun response =>
    match response with
    | None => Throw (TypeError "success")
    | Some r =>
        if negb (success r) then Throw (newError (error r))
        else Normal (data r)
    end).

End Clients.

(* ===================================================================== *)
(** * The theme hook: state, callbacks and listeners *)
(* ===================================================================== *)

Module UseTheme.
Import Js Types.

(** ['light' | 'dark'] *)
Inductive Resolved := Light | Dark.

(** The hook's two pieces of state and the class list of
    [document.documentElement]. *)
Record Hook := mkHook {
  theme : Theme;
  resolvedTheme : Resolved;
  classList : gset string;
}.

(** [useState('system')], [useState('light')], over whatever classes the
    document carries. *)
Definition mounted (classes : gset string) : Hook :=
  {| theme := system; resolvedTheme := Light; classList := classes |}.

(** [window], when there is one, with what
    [matchMedia('(prefers-color-scheme: dark)').matches] answers. *)
Record Window := mkWindow { prefersDark : bool }.

(** [getSystemTheme] *)
Definition getSystemTheme (window : option Window) : Resolved :=
  match window with
  | Some w => if prefersDark w then Dark else Light
  | None => Light
  end.

Definition theme_eqb (a b : Theme) : bool :=
  match a, b with
  | light, light | dark, dark | system, system => true
  | _, _ => false
  end.

(** [setTheme] *)
Definition setTheme (t : Theme) (h : Hook) : Hook :=
  {| theme := t; resolvedTheme := resolvedTheme h; classList := classList h |}.

(** [applyTheme(newTheme)] *)
Definition applyTheme (window : option Window) (newTheme : Theme) (h : Hook) : Hook :=
  let resolved :=
    match newTheme with
    | system => getSystemTheme window
    | light => Light
    | dark => Dark
    end in
  {| theme := theme h;
     resolvedTheme := resolved;
     classList :=
       match resolved with
       | Dark => {["dark"]} ∪ classList h
       | Light => classList h ∖ {["dark"]}
       end |}.

(** [loadTheme()], given what [chrome.storage.sync.get('settings')]
    yields. *)
Definition loadTheme (window : option Window)
    (storage : Completion (option Settings)) (h : Hook) : Hook :=
  match storage with
  | Normal _ =>
      let savedTheme := ThemeHook.loadTheme storage in
      applyTheme window savedTheme (setTheme savedTheme h)
  | Throw _ => applyTheme window system h
  end.

(** A [chrome.storage.StorageChange] of the settings key: its
    [newValue], whose [theme] may be missing. *)
Record StorageChange := mkStorageChange {
  newValue : option PartialSettings;
}.

(** [handleStorageChange(changes, areaName)]; [current] is the [theme] the
    listener closed over. *)
Definition handleStorageChange (window : option Window) (current : Theme)
    (settingsChange : option StorageChange) (areaName : string) (h : Hook) : Hook :=
  if String.eqb areaName "sync" then
    match settingsChange with
    | Some change =>
        match newValue change with
        | Some v =>
            match p_theme v with
            | Some newTheme =>
                if negb (theme_eqb newTheme current) then
                  applyTheme window newTheme (setTheme newTheme h)
                else h
            | None => h
            end
        | None => h
        end
    | None => h
    end
  else h.

(** The media query's [change] listener, registered only while the theme
    the effect closed over is ['system']. *)
Definition handleSystemChange (window : option Window) (current : Theme) (h : Hook) : Hook :=
  match current with
  | system => applyTheme window system h
  | _ => h
  end.

(** What happens to a mounted hook. *)
Inductive HookEvent :=
| Loaded (window : option Window) (storage : Completion (option Settings))
| StorageChanged (window : option Window) (current : Theme)
    (settingsChange : option StorageChange) (areaName : string)
| SystemChanged (window : option Window) (current : Theme)
| ThemeSet (t : Theme).

Definition react (h : Hook) (e : HookEvent) : Hook :=
  match e with
  | Loaded window storage => loadTheme window storage h
  | StorageChanged window current settingsChange areaName =>
      handleStorageChange window current settingsChange areaName h
  | SystemChanged window current => handleSystemChange window current h
  | ThemeSet t => setTheme t h
  end.

Definition reacts (h : Hook) (es : list HookEvent) : Hook := fold_left react es h.

End UseTheme.

(* ===================================================================== *)
(** * More scenarios *)
(* ===================================================================== *)

Module Gallery.
Import Js Types Content.

Definition lookedAtTwice : list (Page * Replies) :=
  [ (Scenarios.pageB 1000,
     {| matchReply := Scenarios.notMatched; visitReply := Scenarios.recorded |});
    (Scenarios.pageB 2000,
     {| matchReply := Throw {| message := "Extension context invalidated." |};
        visitReply := Scenarios.recorded |}) ].

Definition darkWindow : UseTheme.Window := {| UseTheme.prefersDark := true |}.

Definition storedDark : Completion (option Settings) :=
  Normal (Some {| theme := dark;
                  reminder := {| enabled := false; times := ["09:00"] |};
                  autoDetectVisits := false; notificationsEnabled := true |}).

End Gallery.

(* ===================================================================== *)
(** * Properties of the content script *)
(* ===================================================================== *)

Section ContentScript.
Import Js Types Content.

Lemma sendMessage_normal {T} (channel : ChannelResult T) :
  exists v, sendMessage channel = Normal v.
Proof.
  unfold sendMessage.
  destruct channel as [[r|]|e]; simpl; eauto.
  destruct (success r); eauto.
Qed.

(** C9. [sendMessage] is total: it returns the response's data when the
    response has [success: true], and null in every other case (a
    failure envelope, no response, a channel that throws); it never
    throws. *)
Theorem sendMessage_total {T} (channel : ChannelResult T) :
  sendMessage channel =
    Normal (match channel with
            | Normal (Some r) => if success r then of_optional (data r) else Null
            | Normal None => Null
            | Throw _ => Null
            end)
  /\ (forall e, sendMessage channel <> Throw e).
Proof.
  assert (E : sendMessage channel =
    Normal (match channel with
            | Normal (Some r) => if success r then of_optional (data r) else Null
            | Normal None => Null
            | Throw _ => Null
            end)).
  { unfold sendMessage.
    destruct channel as [[r|]|e]; simpl; try reflexivity.
    destruct (success r); reflexivity. }
  split; [exact E|].
  intros e He. rewrite E in He. discriminate He.
Qed.

(** What the first segment does, by the two guards. *)
Lemma begin_skips st pg :
  String.prefix "http://" (href pg) = false ->
  String.prefix "https://" (href pg) = false ->
  processVisit_begin st pg = returned st.
Proof.
  intros H1 H2. unfold processVisit_begin. rewrite H1, H2. simpl.
  destruct (hasNotifiedVisit st && String.eqb (href pg) (lastProcessedUrl st));
    reflexivity.
Qed.

Lemma begin_cases st pg :
  processVisit_begin st pg = returned st
  \/ processVisit_begin st pg =
       {| seg_state := {| hasNotifiedVisit := hasNotifiedVisit st;
                          lastProcessedUrl := href pg |};
          seg_sent := [checkUrlMatch (href pg)];
          seg_next := Some (AwaitingMatch (href pg)) |}.
Proof.
  unfold processVisit_begin.
  destruct (hasNotifiedVisit st && String.eqb (href pg) (lastProcessedUrl st));
    [left; reflexivity|].
  destruct (negb (String.prefix "http://" (href pg))
            && negb (String.prefix "https://" (href pg)));
    [left|right]; reflexivity.
Qed.

(** The second segment sends [SITE_VISITED] exactly when the settled
    match carries [matched] and not [alreadyVisitedToday]. *)
Lemma matched_cases st pg u (c : ChannelResult UrlMatchResult) :
  (exists resp res,
      c = Normal (Some resp) /\ success resp = true /\ data resp = Some res
      /\ matched res = true /\ alreadyVisitedToday res <> Some true
      /\ processVisit_matched st pg u c =
           {| seg_state := st; seg_sent := [siteVisited u pg];
              seg_next := Some (AwaitingVisit u) |})
  \/ (seg_sent (processVisit_matched st pg u c) = []
      /\ seg_next (processVisit_matched st pg u c) = None
      /\ lastProcessedUrl (seg_state (processVisit_matched st pg u c))
         = lastProcessedUrl st).
Proof.
  unfold processVisit_matched, sendMessage.
  destruct c as [[resp|]|e]; simpl; try (right; repeat split; reflexivity).
  destruct (success resp) eqn:Hs; simpl; try (right; repeat split; reflexivity).
  destruct (data resp) as [res|] eqn:Hd; simpl;
    try (right; repeat split; reflexivity).
  destruct (matched res) eqn:Hm; simpl; try (right; repeat split; reflexivity).
  destruct (alreadyVisitedToday res) as [[|]|] eqn:Ha; simpl;
    try (right; repeat split; reflexivity);
    left; exists resp, res; repeat split; auto; congruence.
Qed.

Lemma visited_sets_flag st (c : ChannelResult Site) :
  processVisit_visited st c =
    returned {| hasNotifiedVisit := true; lastProcessedUrl := lastProcessedUrl st |}.
Proof.
  unfold processVisit_visited.
  destruct (sendMessage_normal c) as [v ->]. reflexivity.
Qed.

(** One run that nothing interleaves with, by its three outcomes. *)
Lemma processVisit_cases st pg r :
  processVisit st pg r = (st, [])
  \/ (exists st',
        processVisit st pg r = (st', [checkUrlMatch (href pg)])
        /\ lastProcessedUrl st' = href pg
        /\ ~ (exists resp res,
                matchReply r = Normal (Some resp) /\ success resp = true
                /\ data resp = Some res /\ matched res = true
                /\ alreadyVisitedToday res <> Some true))
  \/ (exists resp res,
        matchReply r = Normal (Some resp) /\ success resp = true
        /\ data resp = Some res /\ matched res = true
        /\ alreadyVisitedToday res <> Some true
        /\ processVisit st pg r =
             ({| hasNotifiedVisit := true; lastProcessedUrl := href pg |},
              [checkUrlMatch (href pg); siteVisited (href pg) pg])).
Proof.
  unfold processVisit.
  destruct (begin_cases st pg) as [-> | ->]; simpl; [left; reflexivity|].
  right.
  set (st1 := {| hasNotifiedVisit := hasNotifiedVisit st;
                 lastProcessedUrl := href pg |}).
  destruct (matched_cases st1 pg (href pg) (matchReply r))
    as [(resp & res & Hc & Hs & Hd & Hm & Ha & ->) | (Hsent & Hnext & Hlast)].
  - right. exists resp, res. simpl. rewrite visited_sets_flag. simpl.
    repeat split; auto.
  - left. rewrite Hnext, Hsent. simpl. eexists. split; [reflexivity|].
    split; [exact Hlast|].
    intros (resp & res & Hc & Hs & Hd & Hm & Ha).
    revert Hsent. unfold processVisit_matched, sendMessage.
    rewrite Hc. simpl. rewrite Hs, Hd. simpl. rewrite Hm.
    destruct (alreadyVisitedToday res) as [[|]|]; simpl;
      try discriminate; congruence.
Qed.

(** With runs overlapping in any way, a run that waits for its match
    has its [CHECK_URL_MATCH] in the log, and the log keeps every
    [SITE_VISITED] behind the [CHECK_URL_MATCH] for its URL. *)
Lemma act_checkedFirst p a :
  checkedFirst (pool_sent p) ->
  (forall i u, pool_runs p !! i = Some (Some (AwaitingMatch u)) ->
               checkUrlMatch u ∈ pool_sent p) ->
  checkedFirst (pool_sent (act p a))
  /\ (forall i u, pool_runs (act p a) !! i = Some (Some (AwaitingMatch u)) ->
                  checkUrlMatch u ∈ pool_sent (act p a)).
Proof.
  intros Hlog Hruns. destruct a as [pg | pg | i pg c | i c]; simpl.
  - destruct (begin_cases (pool_state p) pg) as [-> | ->]; simpl.
    + rewrite app_nil_r. split; [exact Hlog|].
      intros i u H. apply lookup_snoc_Some in H as [[_ H] | [_ H]];
        [eauto | discriminate].
    + split; [apply checked_check, Hlog|].
      intros i u H. apply elem_of_app.
      apply lookup_snoc_Some in H as [[_ H] | [_ H]]; [left; eauto|].
      right. injection H as <-. apply list_elem_of_here.
  - split; assumption.
  - destruct (pool_runs p !! i) as [[[u|u]|]|] eqn:L; try (split; assumption).
    unfold resume.
    destruct (matched_cases (pool_state p) pg u c)
      as [(resp & res & _ & _ & _ & _ & _ & ->) | (-> & -> & _)]; simpl.
    + split; [apply checked_visit; eauto|].
      intros j v H. apply elem_of_app. left.
      apply list_lookup_insert_Some in H as [(_ & H & _) | (_ & H)];
        [discriminate | eauto].
    + rewrite app_nil_r. split; [exact Hlog|].
      intros j v H.
      apply list_lookup_insert_Some in H as [(_ & H & _) | (_ & H)];
        [discriminate | eauto].
  - destruct (pool_runs p !! i) as [[[u|u]|]|] eqn:L; try (split; assumption).
    unfold resume. rewrite visited_sets_flag. simpl.
    rewrite app_nil_r. split; [exact Hlog|].
    intros j v H.
    apply list_lookup_insert_Some in H as [(_ & H & _) | (_ & H)];
      [discriminate | eauto].
Qed.

Lemma interleave_checkedFirst acts : forall p,
  checkedFirst (pool_sent p) ->
  (forall i u, pool_runs p !! i = Some (Some (AwaitingMatch u)) ->
               checkUrlMatch u ∈ pool_sent p) ->
  checkedFirst (pool_sent (interleave p acts)).
Proof.
  induction acts as [|a acts IH]; intros p Hlog Hruns; [exact Hlog|].
  destruct (act_checkedFirst p a Hlog Hruns) as [Hlog' Hruns'].
  apply (IH (act p a) Hlog' Hruns').
Qed.

(** C3. In a run of [processVisit], a [SITE_VISITED] message is sent only
    after the [CHECK_URL_MATCH] request for the same current URL has
    settled with [matched: true] and [alreadyVisitedToday] not true; when
    the match response is absent, not matched, or already visited today,
    the run sends no [SITE_VISITED]. This holds of a run on its own, of
    the segment that resumes a run wherever it is resumed, and of the
    log of runs that overlap in any way. *)
Theorem site_visited_only_after_match :
  (forall st pg r,
     let log := snd (processVisit st pg r) in
     (existsb isSiteVisited log = true ->
        exists resp res,
          matchReply r = Normal (Some resp) /\ success resp = true
          /\ data resp = Some res /\ matched res = true
          /\ alreadyVisitedToday res <> Some true
          /\ log = [checkUrlMatch (href pg); siteVisited (href pg) pg])
     /\ ((forall resp res,
            matchReply r = Normal (Some resp) -> success resp = true ->
            data resp = Some res ->
            matched res = false \/ alreadyVisitedToday res = Some true) ->
         existsb isSiteVisited log = false))
  /\ (forall st pg u c,
        let s := processVisit_matched st pg u c in
        (seg_sent s = [siteVisited u pg]
         /\ exists resp res,
              c = Normal (Some resp) /\ success resp = true
              /\ data resp = Some res /\ matched res = true
              /\ alreadyVisitedToday res <> Some true)
        \/ seg_sent s = [])
  /\ (forall st pg, seg_sent (processVisit_begin st pg) = []
                    \/ seg_sent (processVisit_begin st pg) = [checkUrlMatch (href pg)])
  /\ (forall st c, seg_sent (processVisit_visited st c) = [])
  /\ (forall acts, checkedFirst (pool_sent (interleave emptyPool acts))).
Proof.
  split; [|split; [|split; [|split]]].
  - intros st pg r.
    destruct (processVisit_cases st pg r)
      as [E | [(st' & E & _ & _) | (resp & res & Hc & Hs & Hd & Hm & Ha & E)]];
      rewrite E; simpl; split; try discriminate; try reflexivity.
    + intros _. exists resp, res. repeat split; auto.
    + intros H. destruct (H resp res Hc Hs Hd) as [H' | H']; congruence.
  - intros st pg u c.
    destruct (matched_cases st pg u c)
      as [(resp & res & Hc & Hs & Hd & Hm & Ha & E) | (E & _)]; simpl.
    + left. rewrite E. simpl. split; [reflexivity|]. exists resp, res. auto.
    + right. exact E.
  - intros st pg. destruct (begin_cases st pg) as [-> | ->]; auto.
  - intros st c. rewrite visited_sets_flag. reflexivity.
  - intros acts. apply interleave_checkedFirst; [constructor|].
    intros i u H. simpl in H. rewrite lookup_nil in H. discriminate.
Qed.

Lemma countSiteVisited_app l1 l2 :
  countSiteVisited (l1 ++ l2) = countSiteVisited l1 + countSiteVisited l2.
Proof. unfold countSiteVisited. rewrite filter_app, length_app. reflexivity. Qed.

(** A detector that has notified for [u] ignores every further event on
    [u]. *)
Lemma step_settled u w e :
  href (eventPage e) = u ->
  hasNotifiedVisit (detector w) = true ->
  lastProcessedUrl (detector w) = u ->
  sent (step w e) = sent w /\ detector (step w e) = detector w.
Proof.
  intros Hu Hn Hl.
  assert (P : forall pg r t, href pg = u ->
    runProcessVisit {| detector := detector w; timers := t; sent := sent w |} pg r
    = {| detector := detector w; timers := t; sent := sent w |}).
  { intros pg r t Hpg. unfold runProcessVisit, processVisit, processVisit_begin.
    simpl. rewrite Hn, Hpg, Hl, String.eqb_refl. simpl.
    rewrite app_nil_r. reflexivity. }
  destruct e as [pg r | pg | pg r | pg r]; simpl in *.
  - destruct w as [d t sn]. simpl in *. rewrite (P pg r t Hu). auto.
  - unfold handleUrlChange. rewrite Hu, Hl, String.eqb_refl. simpl. auto.
  - destruct (timers w) as [|n]; [auto|]. rewrite (P pg r n Hu). auto.
  - unfold handleVisibilityChange. destruct (visible pg); [|auto].
    destruct w as [d t sn]. simpl in *. rewrite (P pg r t Hu). auto.
Qed.

Lemma run_settled u es : forall w,
  Forall (fun e => href (eventPage e) = u) es ->
  hasNotifiedVisit (detector w) = true ->
  lastProcessedUrl (detector w) = u ->
  sent (run w es) = sent w.
Proof.
  induction es as [|e es IH]; intros w Hall Hn Hl; [reflexivity|].
  apply Forall_cons in Hall as [He Hes].
  destruct (step_settled _ w e He Hn Hl) as [Hs Hd].
  unfold run in *. simpl. rewrite IH; auto; rewrite Hd; auto.
Qed.

(** One event adds at most one [SITE_VISITED], and when it adds one the
    detector has notified for the event's URL. *)
Lemma step_adds w e :
  exists new,
    sent (step w e) = sent w ++ new
    /\ (countSiteVisited new = 0
        \/ (countSiteVisited new = 1
            /\ hasNotifiedVisit (detector (step w e)) = true
            /\ lastProcessedUrl (detector (step w e)) = href (eventPage e))).
Proof.
  assert (P : forall w' pg r, exists new,
    sent (runProcessVisit w' pg r) = sent w' ++ new
    /\ (countSiteVisited new = 0
        \/ (countSiteVisited new = 1
            /\ hasNotifiedVisit (detector (runProcessVisit w' pg r)) = true
            /\ lastProcessedUrl (detector (runProcessVisit w' pg r)) = href pg))).
  { intros w' pg r. unfold runProcessVisit.
    destruct (processVisit_cases (detector w') pg r)
      as [E | [(st' & E & _ & _) | (resp & res & _ & _ & _ & _ & _ & E)]];
      rewrite E; simpl; eexists; (split; [reflexivity|]).
    - left. reflexivity.
    - left. reflexivity.
    - right. repeat split. }
  destruct e as [pg r | pg | pg r | pg r]; simpl.
  - apply P.
  - exists []. rewrite app_nil_r.
    destruct (handleUrlChange (detector w) pg). simpl. auto.
  - destruct (timers w) as [|n].
    + exists []. rewrite app_nil_r. auto.
    + apply (P {| detector := detector w; timers := n; sent := sent w |}).
  - unfold handleVisibilityChange. destruct (visible pg); [apply P|].
    exists []. rewrite app_nil_r. auto.
Qed.

(** C4, as the code has it. Over any sequence of events that all find
    the same URL, handled one after the other (no run overlaps another),
    the detector sends at most one [SITE_VISITED], whatever the state it
    starts in, whatever the channel replies, and whatever the day. *)
Theorem one_site_visited_per_url (u : string) (es : list Event) (w : World) :
  Forall (fun e => href (eventPage e) = u) es ->
  exists new,
    sent (run w es) = sent w ++ new /\ countSiteVisited new <= 1.
Proof.
  revert w. induction es as [|e es IH]; intros w Hall.
  - exists []. rewrite app_nil_r. split; [reflexivity|].
    unfold countSiteVisited. rewrite filter_nil. simpl. lia.
  - apply Forall_cons in Hall as [He Hes].
    destruct (step_adds w e) as (new & Hnew & [H0 | (H1 & Hn & Hl)]).
    + destruct (IH (step w e) Hes) as (new' & Hnew' & Hle).
      exists (new ++ new'). unfold run in *. simpl.
      rewrite Hnew', Hnew, <- app_assoc. split; [reflexivity|].
      rewrite countSiteVisited_app. lia.
    + exists new. unfold run. simpl.
      change (fold_left step es (step w e)) with (run (step w e) es).
      rewrite He in Hl.
      rewrite (run_settled u es (step w e) Hes Hn Hl).
      split; [exact Hnew | lia].
Qed.

(** C4 as stated fails. Two runs on the same URL within one local day
    each send [SITE_VISITED]: once when the application navigates away
    and back (the flag is reset on every URL change and the first visit
    was not recorded), and once when a second run starts while the first
    is still waiting for its match. *)
Lemma dedup_per_day_counterexample :
  countVisitedOn 0 Scenarios.urlA 0
    (sent (run loaded Scenarios.thereAndBack)) = 2
  /\ countVisitedOn 0 Scenarios.urlA 0
       (pool_sent (interleave emptyPool Scenarios.tabSwitch)) = 2.
Proof. split; vm_compute; reflexivity. Qed.

(** The load on A sends the visit; the visibility changes and the replaced
    history entry on A send nothing more. *)
Lemma one_site_visited_per_url_witness :
  exists new,
    sent (run loaded Scenarios.stayOnA) = sent loaded ++ new
    /\ countSiteVisited new <= 1.
Proof.
  apply (one_site_visited_per_url Scenarios.urlA Scenarios.stayOnA loaded).
  repeat constructor.
Defined.

Example stayOnA_sends_once :
  countSiteVisited (sent (run loaded Scenarios.stayOnA)) = 1.
Proof. vm_compute. reflexivity. Qed.

End ContentScript.

(* ===================================================================== *)
(** * Properties of the protocol types *)
(* ===================================================================== *)

Section Protocol.
Import Js Types.

Lemma asMessageType_literal (t : MessageType) : asMessageType (literal t) = Some t.
Proof. destruct t; reflexivity. Qed.

Lemma find_literal_Some s ts t :
  find_literal s ts = Some t -> s = literal t /\ t ∈ ts.
Proof.
  induction ts as [|t' ts IH]; simpl; [discriminate|].
  destruct (String.eqb_spec s (literal t')) as [-> | Hne].
  - intros [= ->]. split; [reflexivity | apply list_elem_of_here].
  - intros H. destruct (IH H) as [-> Hin]. split; [reflexivity|].
    apply list_elem_of_further, Hin.
Qed.

Lemma asMessageType_Some s t : asMessageType s = Some t -> s = literal t.
Proof. intros H. apply find_literal_Some in H. tauto. Qed.

Lemma all_message_types (t : MessageType) : t ∈ MessageTypes.
Proof.
  destruct (find_literal_Some _ _ _ (asMessageType_literal t)) as [_ H].
  exact H.
Qed.

(** C8. The request types of the protocol are exactly the fourteen of the
    enumeration: the union has fourteen members with distinct literals,
    every message's type is one of them, their literals are the
    specification's list up to order, and a string is a message type if
    and only if it is in that list. *)
Theorem message_types_closed :
  length MessageTypes = 14
  /\ NoDup (map literal MessageTypes)
  /\ (forall m : Message, type m ∈ MessageTypes)
  /\ map literal MessageTypes ≡ₚ Spec.requestTypes
  /\ (forall s : string, is_Some (asMessageType s) <-> s ∈ Spec.requestTypes).
Proof.
  assert (P : map literal MessageTypes ≡ₚ Spec.requestTypes).
  { simpl. unfold Spec.requestTypes. apply perm_swap. }
  split; [reflexivity|].
  split; [apply (bool_decide_unpack _); vm_compute; exact I|].
  split; [intros m; apply all_message_types|].
  split; [exact P|].
  intros s. rewrite <- P. split.
  - intros [t Ht]. apply asMessageType_Some in Ht. subst s.
    apply list_elem_of_In, in_map_iff. exists t.
    split; [reflexivity | apply list_elem_of_In, all_message_types].
  - intros H. apply list_elem_of_In, in_map_iff in H as (t & <- & _).
    rewrite asMessageType_literal. eauto.
Qed.

(** C10. The default settings are exactly
    [{theme: 'system', reminder: {enabled: false, times: ['09:00']},
      autoDetectVisits: false, notificationsEnabled: true}]:
    reminders and automatic visit detection are off and notifications
    are on; the theme hook falls back to the same theme when no settings
    are persisted or storage fails. *)
Theorem default_settings_exact :
  DEFAULT_SETTINGS =
    {| theme := system;
       reminder := {| enabled := false; times := ["09:00"] |};
       autoDetectVisits := false;
       notificationsEnabled := true |}
  /\ enabled (reminder DEFAULT_SETTINGS) = false
  /\ times (reminder DEFAULT_SETTINGS) = ["09:00"]
  /\ autoDetectVisits DEFAULT_SETTINGS = false
  /\ notificationsEnabled DEFAULT_SETTINGS = true
  /\ ThemeHook.loadTheme (Normal None) = theme DEFAULT_SETTINGS
  /\ (forall e, ThemeHook.loadTheme (Throw e) = theme DEFAULT_SETTINGS).
Proof. repeat split. Qed.

End Protocol.

(* ===================================================================== *)
(** * Properties of the listener and of the response envelope *)
(* ===================================================================== *)

Section Envelope.
Import Js Types Listener.

Lemma deliver_cases {T} (handleMessage : Message -> Settled (MessageResponse T))
    (m : Message) :
  deliver handleMessage m =
    match handleMessage m with
    | Fulfilled r => (Fulfilled tt, [r])
    | Rejected (ThrownError e) =>
        (Fulfilled tt,
         [{| success := false; data := None; error := Some (Js.message e) |}])
    | Rejected ThrownOther =>
        (Fulfilled tt, [{| success := false; data := None; error := None |}])
    | Rejected ThrownNullish =>
        (Rejected (ThrownError
           {| Js.message :=
                "Cannot read properties of undefined (reading 'message')" |}), [])
    end.
Proof.
  unfold deliver, onMessage, chain, catch_, then_, sendResponse. simpl.
  destruct (handleMessage m) as [r | [e | |]]; reflexivity.
Qed.

(** C1 as stated fails. When the handler's promise is rejected with
    [undefined] (a bare [Promise.reject()]), reading [error.message] in
    the catch callback throws: [sendResponse] is never called and the
    chain ends rejected. When it is rejected with a value that has no
    [message], the caller does receive a failure envelope, but one with no
    error string. *)
Lemma rejection_without_message_escapes :
  deliver (fun _ : Message => Rejected ThrownNullish : Settled (MessageResponse (list Site)))
          {| type := GET_SITES; payload := None |}
  = (Rejected (ThrownError
       {| Js.message := "Cannot read properties of undefined (reading 'message')" |}),
     [])
  /\ deliver (fun _ : Message => Rejected ThrownOther : Settled (MessageResponse (list Site)))
             {| type := GET_SITES; payload := None |}
     = (Fulfilled tt, [{| success := false; data := None; error := None |}]).
Proof. split; reflexivity. Qed.

(** C1, as the listener has it. Whenever [handleMessage] resolves, or
    rejects with anything but [undefined] or [null], the listener lets no
    rejection escape and the caller receives exactly one response: the
    handler's own response when it resolved, and a failure envelope
    without data when it rejected, whose error is the error's message
    when the rejection is an [Error]. *)
Theorem listener_always_responds {T}
    (handleMessage : Message -> Settled (MessageResponse T)) (m : Message) :
  fst (onMessage handleMessage m) = true
  /\ (forall r, handleMessage m = Fulfilled r ->
        deliver handleMessage m = (Fulfilled tt, [r]))
  /\ (forall e, handleMessage m = Rejected (ThrownError e) ->
        deliver handleMessage m =
          (Fulfilled tt,
           [{| success := false; data := None; error := Some (Js.message e) |}]))
  /\ (handleMessage m <> Rejected ThrownNullish ->
        exists response,
          deliver handleMessage m = (Fulfilled tt, [response])
          /\ (forall v, handleMessage m = Rejected v ->
                success response = false /\ data response = None)).
Proof.
  rewrite deliver_cases.
  split; [reflexivity|].
  split; [intros r ->; reflexivity|].
  split; [intros e ->; reflexivity|].
  intros H. destruct (handleMessage m) as [r | [e | |]];
    try (eexists; split; [reflexivity|]; intros v Hv; try discriminate; auto).
  contradiction.
Qed.

(** A handler that rejects with a StoreError, and the router, which
    resolves. *)
Example rejection_becomes_failure :
  deliver (fun _ : Message => Rejected (ThrownError Background.StoreError)
             : Settled (MessageResponse Background.Data))
          {| type := GET_SITES; payload := None |}
  = (Fulfilled tt,
     [{| success := false; data := None;
         error := Some "StoreError: storage is unavailable" |}])
  /\ deliver (Background.handleMessage Scenarios.env0 Scenarios.backend0)
             {| type := GET_SITES; payload := None |}
     = (Fulfilled tt,
        [{| success := true;
            data := Some (Background.DSites [Scenarios.siteA]);
            error := None |}]).
Proof. split; reflexivity. Qed.

Lemma handler_wellFormed {T} (op : Completion (option T)) : wellFormed (handler op).
Proof.
  destruct op as [v|e]; unfold wellFormed; simpl; [reflexivity|].
  split; [reflexivity | eauto].
Qed.

(** Every response of the router is built the way the handler pattern
    builds it. *)
Lemma handle_is_handler env b req :
  exists op, fst (Background.handle env b req) = handler op.
Proof.
  unfold Background.handle.
  destruct (asMessageType (Background.req_type req)) as [t|].
  - destruct (Background.dispatch env b t (Background.req_payload req))
      as [[d b']|e].
    + exists (Normal d). reflexivity.
    + exists (Throw e). reflexivity.
  - exists (Throw {| Js.message :=
        String.append "Unknown message type: " (Background.req_type req) |}).
    reflexivity.
Qed.

(** The router answers an unknown type, and a handler that throws, with
    the failure envelope, and leaves the state as it was. *)
Lemma unknown_type_rejected env b req :
  asMessageType (Background.req_type req) = None ->
  Background.handle env b req =
    ({| success := false; data := None;
        error := Some (String.append "Unknown message type: "
                         (Background.req_type req)) |}, b).
Proof. intros H. unfold Background.handle. rewrite H. reflexivity. Qed.

Lemma handler_failure_contained env b req t e :
  asMessageType (Background.req_type req) = Some t ->
  Background.dispatch env b t (Background.req_payload req) = Throw e ->
  Background.handle env b req =
    ({| success := false; data := None; error := Some (Js.message e) |}, b).
Proof. intros H1 H2. unfold Background.handle. rewrite H1, H2. reflexivity. Qed.

Lemma router_wellFormed env b req : wellFormed (fst (Background.handle env b req)).
Proof.
  destruct (handle_is_handler env b req) as [op ->]. apply handler_wellFormed.
Qed.



End Envelope.

(* ===================================================================== *)
(** * Properties of the scheduler *)
(* ===================================================================== *)

Section Scheduler.
Import Js Types Background.

Lemma prefix_append (p t : string) : String.prefix p (String.append p t) = true.
Proof.
  induction p as [|a p IH]; simpl; [destruct t; reflexivity|].
  destruct (ascii_dec a a); [exact IH | congruence].
Qed.

Lemma append_inj (p a b : string) : String.append p a = String.append p b -> a = b.
Proof. induction p as [|c p IH]; simpl; [auto|]. intros [= H]. auto. Qed.

Lemma reminderName_is_reminder t : isReminderAlarm (reminderName t) = true.
Proof. apply prefix_append. Qed.

Lemma reminderName_inj t t' : reminderName t = reminderName t' -> t = t'.
Proof. apply append_inj. Qed.

Lemma clearReminders_lookup (m : gmap string Alarm) name :
  clearReminders m !! name = if isReminderAlarm name then None else m !! name.
Proof.
  unfold clearReminders. destruct (isReminderAlarm name) eqn:E.
  - apply map_lookup_filter_None. right. intros a _. simpl. congruence.
  - destruct (m !! name) as [a|] eqn:L.
    + apply map_lookup_filter_Some. split; [exact L | exact E].
    + apply map_lookup_filter_None. left. exact L.
Qed.

(** The creation loop leaves the names it does not create untouched. *)
Lemma create_other env ts : forall (m : gmap string Alarm) name,
  (forall t, t ∈ ts -> name <> reminderName t) ->
  fold_left (createReminder env) ts m !! name = m !! name.
Proof.
  induction ts as [|t0 ts IH]; intros m name H; simpl; [reflexivity|].
  rewrite IH.
  - unfold createReminder. apply lookup_insert_ne.
    intros E. apply (H t0); [apply list_elem_of_here | auto].
  - intros t Ht. apply H. apply list_elem_of_further, Ht.
Qed.

(** It holds, for every configured time, the alarm of that time. *)
Lemma create_lookup env ts : forall (m : gmap string Alarm) t,
  t ∈ ts ->
  fold_left (createReminder env) ts m !! reminderName t = Some (reminderAlarm env t).
Proof.
  induction ts as [|t0 ts IH]; intros m t Ht; simpl.
  - apply elem_of_nil in Ht. contradiction.
  - destruct (decide (t ∈ ts)) as [Hin | Hout].
    + apply IH, Hin.
    + apply elem_of_cons in Ht as [-> | Hin]; [|contradiction].
      rewrite create_other.
      * unfold createReminder. apply lookup_insert_eq.
      * intros t Ht E. apply reminderName_inj in E. subst t. contradiction.
Qed.

Lemma create_lookup_Some env ts (m : gmap string Alarm) name a :
  fold_left (createReminder env) ts m !! name = Some a ->
  (exists t, t ∈ ts /\ name = reminderName t /\ a = reminderAlarm env t)
  \/ m !! name = Some a.
Proof.
  intros H.
  destruct (decide (name ∈ map reminderName ts)) as [Hin | Hout].
  - left. apply list_elem_of_In, in_map_iff in Hin as (t & <- & Ht).
    apply list_elem_of_In in Ht. exists t.
    rewrite (create_lookup env ts m t Ht) in H. injection H as <-. auto.
  - right. rewrite create_other in H; [exact H|].
    intros t Ht ->. apply Hout, list_elem_of_In, in_map_iff.
    exists t. split; [reflexivity | apply list_elem_of_In, Ht].
Qed.

(** What reconciliation leaves behind, name by name. *)
Lemma reconcile_other env r (m : gmap string Alarm) name :
  isReminderAlarm name = false -> reconcile env r m !! name = m !! name.
Proof.
  intros E. unfold reconcile.
  assert (C : clearReminders m !! name = m !! name)
    by (rewrite clearReminders_lookup, E; reflexivity).
  destruct (enabled r); [|exact C].
  rewrite create_other; [exact C|].
  intros t _ ->. rewrite reminderName_is_reminder in E. discriminate.
Qed.

Lemma reconcile_reminder env r (m : gmap string Alarm) name a :
  isReminderAlarm name = true ->
  reconcile env r m !! name = Some a <->
  enabled r = true
  /\ exists t, t ∈ times r /\ name = reminderName t /\ a = reminderAlarm env t.
Proof.
  intros E. unfold reconcile.
  assert (C : clearReminders m !! name = None)
    by (rewrite clearReminders_lookup, E; reflexivity).
  destruct (enabled r); split.
  - intros H. split; [reflexivity|].
    apply create_lookup_Some in H as [H | H]; [exact H | congruence].
  - intros (_ & t & Ht & -> & ->). apply create_lookup, Ht.
  - rewrite C. discriminate.
  - intros [H _]. discriminate.
Qed.

Lemma reminders_lookup (m : gmap string Alarm) name :
  reminders m !! name = if isReminderAlarm name then m !! name else None.
Proof.
  unfold reminders. destruct (isReminderAlarm name) eqn:E.
  - destruct (m !! name) as [a|] eqn:L.
    + apply map_lookup_filter_Some. split; [exact L | exact E].
    + apply map_lookup_filter_None. left. exact L.
  - apply map_lookup_filter_None. right. intros a _. simpl. congruence.
Qed.

Lemma reminders_create env ts : forall (m : gmap string Alarm),
  reminders (fold_left (createReminder env) ts m)
  = fold_left (createReminder env) ts (reminders m).
Proof.
  induction ts as [|t ts IH]; intros m; simpl; [reflexivity|].
  rewrite IH. f_equal. unfold createReminder, reminders.
  apply map_filter_insert_True. apply reminderName_is_reminder.
Qed.

Lemma create_size env ts : forall (m : gmap string Alarm),
  NoDup ts ->
  (forall t, t ∈ ts -> m !! reminderName t = None) ->
  size (fold_left (createReminder env) ts m) = size m + length ts.
Proof.
  induction ts as [|t0 ts IH]; intros m Hnd Hfree; simpl; [lia|].
  apply NoDup_cons in Hnd as [Hout Hnd].
  rewrite IH; [|exact Hnd|].
  - unfold createReminder. rewrite map_size_insert_None; [lia|].
    apply Hfree, list_elem_of_here.
  - intros t Ht. unfold createReminder. rewrite lookup_insert_ne.
    + apply Hfree, list_elem_of_further, Ht.
    + intros E. apply reminderName_inj in E. subst t0. contradiction.
Qed.

Lemma reminders_cleared (m : gmap string Alarm) : reminders (clearReminders m) = ∅.
Proof.
  apply map_empty. intros name.
  rewrite reminders_lookup, clearReminders_lookup.
  destruct (isReminderAlarm name); reflexivity.
Qed.

Lemma reconcile_size env r (m : gmap string Alarm) :
  enabled r = true -> NoDup (times r) ->
  size (reminders (reconcile env r m)) = length (times r).
Proof.
  intros E Hnd. unfold reconcile. rewrite E, reminders_create, reminders_cleared.
  rewrite create_size; [rewrite map_size_empty; lia | exact Hnd |].
  intros t _. apply lookup_empty.
Qed.

Lemma reconcile_disabled env r (m : gmap string Alarm) :
  enabled r = false -> reminders (reconcile env r m) = ∅.
Proof. intros E. unfold reconcile. rewrite E. apply reminders_cleared. Qed.

End Scheduler.

Section Reconciliation.
Import Js Types Background.

Lemma handle_updateSettings env b partial :
  available (store b) = true ->
  handle env b (updateSettings partial) =
    (let merged := mergeSettings (default DEFAULT_SETTINGS (settings (store b))) partial in
     ({| success := true; data := Some (DSettings merged); error := None |},
      {| store := {| sites := sites (store b); settings := Some merged;
                     available := available (store b) |};
         alarms := match p_reminder partial with
                   | Some _ => reconcile env (reminder merged) (alarms b)
                   | None => alarms b
                   end |})).
Proof.
  intros Ha. unfold handle, updateSettings. simpl.
  unfold getSettings, setSettings. rewrite Ha. reflexivity.
Qed.

(** C6. With the store readable, a cold start and every settings update
    that carries [reminder] leave exactly the reconciled schedule under
    the reminder prefix: reconciliation touches no other alarm, keeps no
    reminder alarm of its own past, and, if and only if reminders are
    enabled, holds one daily recurring alarm per configured time; after
    an update that disables reminders no reminder alarm remains. *)
Theorem reminders_reconciled env b :
  available (store b) = true ->
  let s := default DEFAULT_SETTINGS (settings (store b)) in
  (forall r (m : gmap string Alarm),
     (forall name, isReminderAlarm name = false ->
        reconcile env r m !! name = m !! name)
     /\ (forall name a, isReminderAlarm name = true ->
           reconcile env r m !! name = Some a <->
           enabled r = true
           /\ exists t, t ∈ times r /\ name = reminderName t
                        /\ a = reminderAlarm env t)
     /\ (forall t, periodInMinutes (reminderAlarm env t) = Some 1440%Z)
     /\ (enabled r = true -> NoDup (times r) ->
           size (reminders (reconcile env r m)) = length (times r))
     /\ (enabled r = false -> reminders (reconcile env r m) = ∅))
  /\ reminders (alarms (coldStart env b))
     = reminders (reconcile env (reminder s) (alarms b))
  /\ (forall partial pr, p_reminder partial = Some pr ->
        alarms (snd (handle env b (updateSettings partial)))
        = reconcile env (reminder (mergeSettings s partial)) (alarms b))
  /\ (forall partial ts,
        p_reminder partial = Some {| p_enabled := Some false; p_times := ts |} ->
        reminders (alarms (snd (handle env b (updateSettings partial)))) = ∅).
Proof.
  intros Ha s. split; [|split; [|split]].
  - intros r m. split; [intros; apply reconcile_other; assumption|].
    split; [intros; apply reconcile_reminder; assumption|].
    split; [reflexivity|].
    split; [apply reconcile_size | apply reconcile_disabled].
  - unfold coldStart, getSettings. rewrite Ha. simpl.
    apply map_eq. intros name. rewrite !reminders_lookup.
    destruct (isReminderAlarm name) eqn:E; [|reflexivity].
    apply lookup_insert_ne. intros <-. vm_compute in E. discriminate.
  - intros partial pr Hp. rewrite (handle_updateSettings env b partial Ha).
    simpl. rewrite Hp. reflexivity.
  - intros partial ts Hp. rewrite (handle_updateSettings env b partial Ha).
    simpl. rewrite Hp. apply reconcile_disabled.
    unfold mergeSettings; simpl; try rewrite Hp; reflexivity.
Qed.

(** A worker that holds a stale reminder alarm holds none once reminders
    are disabled. *)
Lemma reminders_reconciled_witness :
  reminders (alarms (snd (handle Scenarios.env0 Scenarios.backend0
                            (updateSettings Scenarios.remindersOff)))) = ∅.
Proof.
  apply (reminders_reconciled Scenarios.env0 Scenarios.backend0 eq_refl
           : _ /\ _ /\ _ /\ _) with (ts := None).
  reflexivity.
Defined.

(** The scenario of the specification: enabling a reminder at 09:00
    leaves exactly one reminder alarm, the one for 09:00, in place of the
    stale one; disabling reminders afterwards leaves none. The daily-reset
    alarm is untouched throughout. *)
Example one_alarm_then_none :
  let b1 := snd (handle Scenarios.env0 Scenarios.backend0
                   (updateSettings Scenarios.remindAtNine)) in
  let b2 := snd (handle Scenarios.env0 b1 (updateSettings Scenarios.remindersOff)) in
  size (reminders (alarms b1)) = 1
  /\ alarms b1 !! "reminder-09:00"
     = Some {| scheduledTime := 32400000; periodInMinutes := Some 1440%Z |}
  /\ alarms b1 !! "reminder-08:00" = None
  /\ size (reminders (alarms b2)) = 0
  /\ alarms b2 !! "daily-reset" = Some Scenarios.staleAlarm.
Proof. vm_compute. repeat split. Qed.

End Reconciliation.

(* ===================================================================== *)
(** * Properties of the matcher and of the recorder *)
(* ===================================================================== *)

Section Visits.
Import Js Types Background.
Local Open Scope Z_scope.

Lemma matchSite_other_scheme st u :
  String.prefix "http://" u = false ->
  String.prefix "https://" u = false ->
  matchSite st u = Normal None.
Proof. intros H1 H2. unfold matchSite, isHttpScheme. rewrite H1, H2. reflexivity. Qed.

Lemma handle_checkUrlMatch env b u :
  handle env b (requestOf (Content.checkUrlMatch u)) =
    (match matchUrl env (store b) u with
     | Normal r => {| success := true; data := Some (DMatch r); error := None |}
     | Throw e => {| success := false; data := None; error := Some (message e) |}
     end, b).
Proof.
  unfold handle, requestOf. simpl.
  destruct (matchUrl env (store b) u); reflexivity.
Qed.

(** What the router does with a [SITE_VISITED]: the sites it leaves. *)
Lemma handle_siteVisited_sites env b p :
  sites (store (snd (handle env b
    (requestOf {| type := SITE_VISITED; payload := Some (PSiteVisited p) |}))))
  = match matchSite (store b) (sv_url p) with
    | Normal (Some s) => writeSite (visit (sv_timestamp p) s) (sites (store b))
    | _ => sites (store b)
    end.
Proof.
  unfold handle, requestOf. simpl. unfold recordAuto.
  destruct (matchSite (store b) (sv_url p)) as [[s|]|e] eqn:M; simpl;
    try reflexivity.
  unfold matchSite in M. unfold getSites, setSites in *.
  destruct (isHttpScheme (sv_url p)); [|discriminate].
  destruct (available (store b)); simpl in *; [reflexivity | discriminate].
Qed.

(** C2. A URL whose scheme is neither http nor https is never matched and
    never recorded: the matcher reports [matched: false] for it, the
    router's [CHECK_URL_MATCH] answers [matched: false] whatever the state
    of the store, its [SITE_VISITED] answers null and leaves every site as
    it was, and [processVisit] on such a page returns without sending any
    message and without touching its state. *)
Theorem other_schemes_never_matched (u : string) :
  String.prefix "http://" u = false ->
  String.prefix "https://" u = false ->
  (forall env st, matchUrl env st u = Normal noMatch)
  /\ matched noMatch = false
  /\ (forall env b,
        handle env b (requestOf (Content.checkUrlMatch u)) =
          ({| success := true; data := Some (DMatch noMatch); error := None |}, b))
  /\ (forall env b p,
        sv_url p = u ->
        let answer :=
          handle env b
            (requestOf {| type := SITE_VISITED; payload := Some (PSiteVisited p) |}) in
        fst answer = {| success := true; data := Some DNull; error := None |}
        /\ sites (store (snd answer)) = sites (store b))
  /\ (forall st pg r,
        Content.href pg = u -> Content.processVisit st pg r = (st, [])).
Proof.
  intros H1 H2.
  assert (M : forall env st, matchUrl env st u = Normal noMatch).
  { intros env st. unfold matchUrl. rewrite matchSite_other_scheme by assumption.
    reflexivity. }
  split; [exact M|]. split; [reflexivity|]. split; [|split].
  - intros env b. rewrite handle_checkUrlMatch, M. reflexivity.
  - intros env b p Hp answer. subst answer. split.
    + unfold handle, requestOf. simpl. unfold recordAuto.
      rewrite Hp, matchSite_other_scheme by assumption. reflexivity.
    + rewrite handle_siteVisited_sites, Hp.
      rewrite matchSite_other_scheme by assumption. reflexivity.
  - intros st pg r Hu. subst u. unfold Content.processVisit.
    rewrite begin_skips by assumption. reflexivity.
Qed.

(** A page opened from a file sends nothing, whatever the channel would
    answer. *)
Lemma other_schemes_never_matched_witness :
  Content.processVisit Content.initialState
    {| Content.href := "file:///home/me/notes.html"; Content.docTitle := "notes";
       Content.now := 1000; Content.visible := true |}
    {| Content.matchReply := Scenarios.matchedFresh;
       Content.visitReply := Scenarios.recorded |}
  = (Content.initialState, []).
Proof.
  apply (other_schemes_never_matched "file:///home/me/notes.html" eq_refl eq_refl).
  reflexivity.
Defined.

(** *** The recorder *)

















(** The scenario of the specification: a saved site starts at zero visits;
    a visit at [T] makes it one visit, last visited at [T]; a second visit
    later the same day makes it two, while the matcher already reported
    the site as visited today before that second visit. A detected visit
    that is served after a later one counts, and leaves the last visit
    where it was; and of two visits that race on the same reading, the
    one that lands last takes nothing back. *)
Example two_visits_counted :
  sites (store (visits Scenarios.backend0 Scenarios.twoVisits))
  = [ {| id := "s1"; url := Scenarios.urlA; title := "A"; favicon := None;
         notes := None; tags := None; createdAt := 0;
         lastVisitedAt := Some 2000; visitCount := 2 |} ]
  /\ matchUrl Scenarios.env0
       (store (visits Scenarios.backend0 (take 1 Scenarios.twoVisits)))
       Scenarios.urlA
     = Normal {| matched := true; siteId := Some "s1"; siteName := Some "A";
                 alreadyVisitedToday := Some true |}
  /\ map (fun s => (visitCount s, lastVisitedAt s))
       (sites (store (visits Scenarios.backend0 Scenarios.lateArrival)))
     = [(2, Some 2000)]
  /\ map (fun s => (visitCount s, lastVisitedAt s))
       (races (sites (store Scenarios.backend0)) Scenarios.twoRacing)
     = [(1, Some 2000)].
Proof. repeat split; vm_compute; reflexivity. Qed.

End Visits.

(* ===================================================================== *)
(** * More properties of the content script *)
(* ===================================================================== *)

Section DetectorLog.
Import Js Types Content Detector.

Lemma begin_http st pg :
  processVisit_begin st pg = returned st
  \/ (isHttp (href pg) = true
      /\ hasNotifiedVisit st && String.eqb (href pg) (lastProcessedUrl st) = false
      /\ processVisit_begin st pg =
           {| seg_state := {| hasNotifiedVisit := hasNotifiedVisit st;
                              lastProcessedUrl := href pg |};
              seg_sent := [checkUrlMatch (href pg)];
              seg_next := Some (AwaitingMatch (href pg)) |}).
Proof.
  unfold processVisit_begin, isHttp.
  destruct (hasNotifiedVisit st && String.eqb (href pg) (lastProcessedUrl st));
    [left; reflexivity|].
  destruct (String.prefix "http://" (href pg));
    [right; repeat split|].
  destruct (String.prefix "https://" (href pg));
    [right; repeat split | left; reflexivity].
Qed.

(** What one run sends, and on which pages it sends at all. *)
Lemma processVisit_log st pg r :
  snd (processVisit st pg r) = []
  \/ (isHttp (href pg) = true
      /\ (snd (processVisit st pg r) = [checkUrlMatch (href pg)]
          \/ snd (processVisit st pg r)
             = [checkUrlMatch (href pg); siteVisited (href pg) pg])).
Proof.
  destruct (begin_http st pg) as [E | (Hh & _ & E)].
  - left. unfold processVisit. rewrite E. reflexivity.
  - destruct (processVisit_cases st pg r)
      as [-> | [(st' & -> & _) | (resp & res & _ & _ & _ & _ & _ & ->)]]; simpl; auto.
Qed.

Lemma step_sentOn w e :
  exists new,
    sent (step w e) = sent w ++ new /\ Forall (sentOn (eventPage e)) new.
Proof.
  assert (P : forall w' pg r, exists new,
    sent (runProcessVisit w' pg r) = sent w' ++ new /\ Forall (sentOn pg) new).
  { intros w' pg r. unfold runProcessVisit.
    destruct (processVisit (detector w') pg r) as [st log] eqn:E.
    exists log. split; [reflexivity|].
    destruct (processVisit_log (detector w') pg r) as [H | (Hh & [H | H])];
      rewrite E in H; simpl in H; subst log; unfold sentOn;
      repeat (constructor; auto). }
  destruct e as [pg r | pg | pg r | pg r]; simpl.
  - apply P.
  - exists []. rewrite app_nil_r.
    destruct (handleUrlChange (detector w) pg). simpl. auto.
  - destruct (timers w) as [|n].
    + exists []. rewrite app_nil_r. auto.
    + apply (P {| detector := detector w; timers := n; sent := sent w |}).
  - unfold handleVisibilityChange. destruct (visible pg); [apply P|].
    exists []. rewrite app_nil_r. auto.
Qed.

Lemma run_sentOn es : forall w,
  exists new,
    sent (run w es) = sent w ++ new
    /\ Forall (fun m => exists e, e ∈ es /\ sentOn (eventPage e) m) new.
Proof.
  induction es as [|e es IH]; intros w.
  - exists []. rewrite app_nil_r. auto.
  - destruct (step_sentOn w e) as (new1 & E1 & F1).
    destruct (IH (step w e)) as (new2 & E2 & F2).
    exists (new1 ++ new2). unfold run in *. simpl.
    rewrite E2, E1, <- app_assoc. split; [reflexivity|].
    apply Forall_app. split.
    + eapply list.Forall_impl; [exact F1|]. intros m Hm. exists e.
      split; [apply list_elem_of_here | exact Hm].
    + eapply list.Forall_impl; [exact F2|]. intros m (e' & He' & Hm). exists e'.
      split; [apply list_elem_of_further, He' | exact Hm].
Qed.

(** X1. Whatever the events and the replies, every message the script
    sends is a [CHECK_URL_MATCH] or a [SITE_VISITED] that carries the
    http(s) URL of the page one of the events found: no other URL ever
    leaves the page. *)
Theorem only_http_urls_are_sent (w : World) (es : list Event) :
  exists new,
    sent (run w es) = sent w ++ new
    /\ Forall (fun m =>
         (type m = CHECK_URL_MATCH \/ type m = SITE_VISITED)
         /\ exists e u,
              e ∈ es /\ messageUrl m = Some u /\ u = href (eventPage e)
              /\ (String.prefix "http://" u = true
                  \/ String.prefix "https://" u = true)) new.
Proof.
  destruct (run_sentOn es w) as (new & E & F). exists new. split; [exact E|].
  eapply list.Forall_impl; [exact F|].
  intros m (e & He & Hh & Hm). unfold isHttp in Hh.
  apply orb_true_iff in Hh.
  destruct Hm as [-> | ->]; simpl; (split; [auto|]); exists e, (href (eventPage e)); auto.
Qed.

Lemma http_nonempty u : isHttp u = true -> u <> "".
Proof. intros H ->. discriminate H. Qed.

Lemma act_titled p a :
  Forall (fun m => forall v, payload m = Some (PSiteVisited v) ->
                     sv_title v <> "" /\ isHttp (sv_url v) = true) (pool_sent p) ->
  (forall i u, pool_runs p !! i = Some (Some (AwaitingMatch u)) -> isHttp u = true) ->
  Forall (fun m => forall v, payload m = Some (PSiteVisited v) ->
                     sv_title v <> "" /\ isHttp (sv_url v) = true)
    (pool_sent (act p a))
  /\ (forall i u, pool_runs (act p a) !! i = Some (Some (AwaitingMatch u)) ->
                  isHttp u = true).
Proof.
  intros Hlog Hruns. destruct a as [pg | pg | i pg c | i c]; simpl.
  - destruct (begin_http (pool_state p) pg) as [-> | (Hh & _ & ->)]; simpl.
    + rewrite app_nil_r. split; [exact Hlog|].
      intros i u H. apply lookup_snoc_Some in H as [[_ H] | [_ H]];
        [eauto | discriminate].
    + split.
      * apply Forall_app. split; [exact Hlog|].
        apply Forall_cons. split; [|constructor].
        intros v Hv. discriminate Hv.
      * intros i u H. apply lookup_snoc_Some in H as [[_ H] | [_ H]]; [eauto|].
        injection H as <-. exact Hh.
  - split; assumption.
  - destruct (pool_runs p !! i) as [[[u|u]|]|] eqn:L; try (split; assumption).
    unfold resume.
    destruct (matched_cases (pool_state p) pg u c)
      as [(resp & res & _ & _ & _ & _ & _ & ->) | (-> & -> & _)]; simpl.
    + split.
      * apply Forall_app. split; [exact Hlog|].
        apply Forall_cons. split; [|constructor].
        intros v [= <-]. simpl. assert (Hh := Hruns i u L). split; [|exact Hh].
        unfold titleOr. destruct (String.eqb_spec (docTitle pg) "") as [_ | Hne];
          [apply http_nonempty, Hh | exact Hne].
      * intros j u' H.
        apply list_lookup_insert_Some in H as [(_ & H & _) | (_ & H)];
          [discriminate | eauto].
    + rewrite app_nil_r. split; [exact Hlog|].
      intros j u' H.
      apply list_lookup_insert_Some in H as [(_ & H & _) | (_ & H)];
        [discriminate | eauto].
  - destruct (pool_runs p !! i) as [[[u|u]|]|] eqn:L; try (split; assumption).
    unfold resume. rewrite visited_sets_flag. simpl.
    rewrite app_nil_r. split; [exact Hlog|].
    intros j u' H.
    apply list_lookup_insert_Some in H as [(_ & H & _) | (_ & H)];
      [discriminate | eauto].
Qed.

(** X2. However runs overlap, and whatever page a run finds when it is
    resumed, every [SITE_VISITED] the script sends has a title that is not
    empty (the document's title, or the run's URL when the document has no
    title) and carries an http(s) URL. *)
Theorem visit_title_never_empty (acts : list Action) :
  Forall (fun m => forall v, payload m = Some (PSiteVisited v) ->
                     sv_title v <> ""
                     /\ (String.prefix "http://" (sv_url v) = true
                         \/ String.prefix "https://" (sv_url v) = true))
    (pool_sent (interleave emptyPool acts)).
Proof.
  assert (G : forall p,
    Forall (fun m => forall v, payload m = Some (PSiteVisited v) ->
                       sv_title v <> "" /\ isHttp (sv_url v) = true) (pool_sent p) ->
    (forall i u, pool_runs p !! i = Some (Some (AwaitingMatch u)) -> isHttp u = true) ->
    Forall (fun m => forall v, payload m = Some (PSiteVisited v) ->
                       sv_title v <> "" /\ isHttp (sv_url v) = true)
      (pool_sent (interleave p acts))).
  { induction acts as [|a acts IH]; intros p H1 H2; [exact H1|].
    destruct (act_titled p a H1 H2) as [K1 K2]. apply (IH (act p a) K1 K2). }
  eapply list.Forall_impl.
  - apply (G emptyPool); [constructor|].
    intros i u H. simpl in H. rewrite lookup_nil in H. discriminate.
  - intros m H v Hv. destruct (H v Hv) as [Ht Hh]. split; [exact Ht|].
    unfold isHttp in Hh. apply orb_true_iff in Hh. exact Hh.
Qed.

Lemma silent_on_other_schemes u es : forall w,
  isHttp u = false ->
  Forall (fun e => href (eventPage e) = u) es ->
  sent (run w es) = sent w.
Proof.
  intros w Hu Hall. destruct (run_sentOn es w) as (new & E & F).
  destruct new as [|m new]; [rewrite E; apply app_nil_r|].
  apply Forall_cons in F as [(e & He & Hh & _) _].
  rewrite list.Forall_forall in Hall. rewrite (Hall e He), Hu in Hh. discriminate.
Qed.

Lemma guard_not_http u :
  isHttp u = true ->
  negb (String.prefix "http://" u) && negb (String.prefix "https://" u) = false.
Proof.
  unfold isHttp. destruct (String.prefix "http://" u); [reflexivity|].
  destruct (String.prefix "https://" u); [reflexivity | discriminate].
Qed.

(** A run that is not skipped and learns of a match ends notified for
    its URL. *)
Lemma processVisit_settles st pg r :
  hasNotifiedVisit st && String.eqb (href pg) (lastProcessedUrl st) = false ->
  isHttp (href pg) = true ->
  matchedReply (matchReply r) ->
  fst (processVisit st pg r)
  = {| hasNotifiedVisit := true; lastProcessedUrl := href pg |}.
Proof.
  intros G Hh (resp & res & Hc & Hs & Hd & Hm).
  unfold processVisit, processVisit_begin. rewrite G, (guard_not_http _ Hh). simpl.
  unfold processVisit_matched, sendMessage. rewrite Hc. simpl. rewrite Hs, Hd. simpl.
  rewrite Hm. destruct (alreadyVisitedToday res) as [[|]|]; simpl;
    rewrite ?visited_sets_flag; reflexivity.
Qed.

(** X3. Once a run has learnt that its page matches a saved site, whether
    it then sent the visit or found it already visited today, every later
    event on the same URL sends nothing at all, not even a
    [CHECK_URL_MATCH]. *)
Theorem silent_once_matched (w : World) (pg : Page) (r : Replies) (es : list Event) :
  matchedReply (matchReply r) ->
  Forall (fun e => href (eventPage e) = href pg) es ->
  sent (run (runProcessVisit w pg r) es) = sent (runProcessVisit w pg r).
Proof.
  intros Hm Hall.
  destruct (hasNotifiedVisit (detector w)
            && String.eqb (href pg) (lastProcessedUrl (detector w))) eqn:G.
  - apply andb_true_iff in G as [Hn He]. apply String.eqb_eq in He.
    apply (run_settled (href pg)); [exact Hall | |];
      unfold runProcessVisit, processVisit, processVisit_begin;
      rewrite Hn, He, String.eqb_refl; simpl; auto.
  - destruct (isHttp (href pg)) eqn:Hh.
    + assert (S := processVisit_settles (detector w) pg r G Hh Hm).
      apply (run_settled (href pg)); [exact Hall | |];
        unfold runProcessVisit;
        destruct (processVisit (detector w) pg r) as [st log];
        simpl in *; subst st; reflexivity.
    + apply (silent_on_other_schemes (href pg)); assumption.
Qed.

Lemma silent_once_matched_witness :
  sent (run (runProcessVisit loaded (Scenarios.pageA 1000)
               {| matchReply := Scenarios.matchedFresh;
                  visitReply := Scenarios.storeFailed |})
            [ VisibilityChange (Scenarios.pageA 2000)
                {| matchReply := Scenarios.matchedFresh;
                   visitReply := Scenarios.recorded |};
              UrlChange (Scenarios.pageA 3000) ])
  = sent (runProcessVisit loaded (Scenarios.pageA 1000)
            {| matchReply := Scenarios.matchedFresh;
               visitReply := Scenarios.storeFailed |}).
Proof.
  apply silent_once_matched.
  - exists {| success := true;
              data := Some {| matched := true; siteId := Some "s1";
                              siteName := Some "A";
                              alreadyVisitedToday := Some false |};
              error := None |},
           {| matched := true; siteId := Some "s1"; siteName := Some "A";
              alreadyVisitedToday := Some false |}.
    repeat split.
  - repeat constructor.
Defined.

(** A run on an http(s) page that has not been notified and gets no match
    sends its check and leaves the flag down. *)
Lemma processVisit_unmatched st pg r :
  hasNotifiedVisit st = false ->
  isHttp (href pg) = true ->
  unmatched (matchReply r) ->
  processVisit st pg r
  = ({| hasNotifiedVisit := false; lastProcessedUrl := href pg |},
     [checkUrlMatch (href pg)]).
Proof.
  intros Hn Hh Hu.
  unfold processVisit, processVisit_begin. rewrite Hn, (guard_not_http _ Hh). simpl.
  unfold processVisit_matched, sendMessage.
  destruct (matchReply r) as [[resp|]|e] eqn:Hc; simpl; try reflexivity.
  destruct (success resp) eqn:Hs; simpl; try reflexivity.
  destruct (data resp) as [res|] eqn:Hd; simpl; try reflexivity.
  rewrite (Hu resp res eq_refl Hs Hd). reflexivity.
Qed.

(** X4. A page that matches no saved site is checked again every time
    its tab is shown: as long as the replies carry no match (not matched,
    a failure, no response, a channel that throws), each showing sends
    exactly one [CHECK_URL_MATCH] and never a [SITE_VISITED], and the flag
    stays down. *)
Theorem unmatched_page_is_rechecked (w : World) (u : string)
    (runs : list (Page * Replies)) :
  hasNotifiedVisit (detector w) = false ->
  isHttp u = true ->
  Forall (fun pr => href (fst pr) = u /\ visible (fst pr) = true
                    /\ unmatched (matchReply (snd pr))) runs ->
  sent (run w (tabShown runs))
  = sent w ++ replicate (length runs) (checkUrlMatch u)
  /\ hasNotifiedVisit (detector (run w (tabShown runs))) = false.
Proof.
  revert w. induction runs as [|[pg r] runs IH]; intros w Hn Hh Hall.
  - simpl. rewrite app_nil_r. auto.
  - apply Forall_cons in Hall as [(Hu & Hv & Hr) Hall]. simpl in Hu, Hv, Hr.
    unfold tabShown, run in *. simpl.
    unfold handleVisibilityChange. rewrite Hv. unfold runProcessVisit.
    subst u.
    rewrite (processVisit_unmatched (detector w) pg r Hn Hh Hr).
    destruct (IH {| detector := {| hasNotifiedVisit := false;
                                   lastProcessedUrl := href pg |};
                    timers := timers w;
                    sent := sent w ++ [checkUrlMatch (href pg)] |})
      as [E F]; [reflexivity | exact Hh | exact Hall |].
    split; [|exact F]. rewrite E. simpl. rewrite <- app_assoc. reflexivity.
Qed.

Lemma unmatched_page_is_rechecked_witness :
  sent (run loaded (tabShown Gallery.lookedAtTwice))
  = sent loaded ++ replicate 2 (checkUrlMatch Scenarios.urlB)
  /\ hasNotifiedVisit (detector (run loaded (tabShown Gallery.lookedAtTwice))) = false.
Proof.
  apply (unmatched_page_is_rechecked loaded Scenarios.urlB Gallery.lookedAtTwice).
  - reflexivity.
  - reflexivity.
  - repeat constructor; simpl; intros resp res H; try discriminate.
    injection H as <-. simpl. intros _ [= <-]. reflexivity.
Defined.

(** A run on an http(s) page with the flag down sends its check first. *)
Lemma processVisit_checks st pg r :
  hasNotifiedVisit st = false ->
  isHttp (href pg) = true ->
  exists rest,
    snd (processVisit st pg r) = checkUrlMatch (href pg) :: rest
    /\ (rest = [] \/ rest = [siteVisited (href pg) pg]).
Proof.
  intros Hn Hh. unfold processVisit, processVisit_begin.
  rewrite Hn, (guard_not_http _ Hh). simpl.
  destruct (matched_cases
              {| hasNotifiedVisit := false; lastProcessedUrl := href pg |}
              pg (href pg) (matchReply r))
    as [(resp & res & _ & _ & _ & _ & _ & ->) | (Hs & Hx & _)].
  - simpl. rewrite visited_sets_flag. simpl.
    eexists. split; [reflexivity | right; reflexivity].
  - rewrite Hx, Hs. simpl. eexists. split; [reflexivity | left; reflexivity].
Qed.

(** X5. After a URL change to an http(s) URL other than the one last
    processed, the delayed run it arms sends a fresh check, provided the
    page still shows that URL when the run fires and no other event came
    between: the run sends a [CHECK_URL_MATCH] for the new URL first, even
    if the detector had notified for the previous URL, and at most one
    [SITE_VISITED] after it. *)
Theorem navigation_checks_again (w : World) (pg later : Page) (r : Replies) :
  href pg <> lastProcessedUrl (detector w) ->
  isHttp (href pg) = true ->
  href later = href pg ->
  exists rest,
    sent (step (step w (UrlChange pg)) (TimerFired later r))
    = sent w ++ checkUrlMatch (href pg) :: rest
    /\ (rest = [] \/ rest = [siteVisited (href pg) later]).
Proof.
  intros Hne Hh Hl. simpl. unfold handleUrlChange.
  apply String.eqb_neq in Hne. rewrite Hne. simpl.
  unfold runProcessVisit. simpl.
  set (st := {| hasNotifiedVisit := false;
                lastProcessedUrl := lastProcessedUrl (detector w) |}).
  rewrite <- Hl in Hh.
  destruct (processVisit_checks st later r eq_refl Hh) as (rest & E & Hrest).
  destruct (processVisit st later r) as [st' log]. simpl in *. subst log.
  rewrite Hl in *. exists rest. auto.
Qed.

(** The application pushes B; half a second later, still on B, the
    delayed run fires. *)
Lemma navigation_checks_again_witness :
  exists rest,
    sent (step (step loaded (UrlChange (Scenarios.pageB 2000)))
               (TimerFired (Scenarios.pageB 2500)
                  {| matchReply := Scenarios.notMatched;
                     visitReply := Scenarios.recorded |}))
    = sent loaded ++ checkUrlMatch (href (Scenarios.pageB 2000)) :: rest
    /\ (rest = []
        \/ rest = [siteVisited (href (Scenarios.pageB 2000)) (Scenarios.pageB 2500)]).
Proof.
  apply (navigation_checks_again loaded (Scenarios.pageB 2000) (Scenarios.pageB 2500)
           {| matchReply := Scenarios.notMatched;
              visitReply := Scenarios.recorded |}).
  - discriminate.
  - reflexivity.
  - reflexivity.
Defined.

Lemma countCheckUrlMatch_app l1 l2 :
  countCheckUrlMatch (l1 ++ l2) = countCheckUrlMatch l1 + countCheckUrlMatch l2.
Proof. unfold countCheckUrlMatch. rewrite filter_app, length_app. reflexivity. Qed.

Lemma pendingMatches_app l1 l2 :
  pendingMatches (l1 ++ l2) = pendingMatches l1 + pendingMatches l2.
Proof.
  induction l1 as [|[[u|u]|] l1 IH]; simpl; rewrite ?IH; reflexivity.
Qed.

Lemma pendingMatches_insert runs : forall i old new,
  runs !! i = Some old ->
  pendingMatches (<[i := new]> runs) + pendingMatches [old]
  = pendingMatches runs + pendingMatches [new].
Proof.
  induction runs as [|x runs IH]; intros i old new H; [discriminate|].
  destruct i as [|i]; simpl in H.
  - injection H as ->. simpl.
    destruct old as [[u|u]|], new as [[v|v]|]; simpl; lia.
  - specialize (IH i old new H).
    change (<[S i := new]> (x :: runs)) with (x :: <[i := new]> runs).
    destruct x as [[u|u]|]; simpl in *; lia.
Qed.

Lemma act_bound p a :
  countSiteVisited (pool_sent p) + pendingMatches (pool_runs p)
    <= countCheckUrlMatch (pool_sent p) ->
  countSiteVisited (pool_sent (act p a)) + pendingMatches (pool_runs (act p a))
    <= countCheckUrlMatch (pool_sent (act p a)).
Proof.
  intros H. destruct a as [pg | pg | i pg c | i c]; simpl.
  - rewrite countSiteVisited_app, countCheckUrlMatch_app, pendingMatches_app.
    destruct (begin_cases (pool_state p) pg) as [-> | ->]; simpl.
    + change (countSiteVisited []) with 0. change (countCheckUrlMatch []) with 0. lia.
    + change (countSiteVisited [checkUrlMatch (href pg)]) with 0.
      change (countCheckUrlMatch [checkUrlMatch (href pg)]) with 1. lia.
  - exact H.
  - destruct (pool_runs p !! i) as [[[u|u]|]|] eqn:L; try exact H.
    unfold resume. simpl.
    rewrite countSiteVisited_app, countCheckUrlMatch_app.
    assert (P := pendingMatches_insert (pool_runs p) i _
                   (seg_next (processVisit_matched (pool_state p) pg u c)) L).
    simpl in P.
    destruct (matched_cases (pool_state p) pg u c)
      as [(resp & res & _ & _ & _ & _ & _ & E) | (E1 & E2 & _)].
    + rewrite E in *. simpl in *.
      change (countSiteVisited [siteVisited u pg]) with 1.
      change (countCheckUrlMatch [siteVisited u pg]) with 0. lia.
    + rewrite E1, E2 in *. simpl in *.
      change (countSiteVisited []) with 0. change (countCheckUrlMatch []) with 0. lia.
  - destruct (pool_runs p !! i) as [[[u|u]|]|] eqn:L; try exact H.
    unfold resume. rewrite visited_sets_flag. simpl.
    assert (P := pendingMatches_insert (pool_runs p) i _ None L). simpl in P.
    rewrite app_nil_r. lia.
Qed.

(** X6. However runs overlap, the script never sends more [SITE_VISITED]
    messages than [CHECK_URL_MATCH] messages: the visits sent and the runs
    still waiting for their match together never outnumber the checks
    sent. *)
Theorem visits_never_outnumber_checks (acts : list Action) :
  let p := interleave emptyPool acts in
  countSiteVisited (pool_sent p) + pendingMatches (pool_runs p)
    <= countCheckUrlMatch (pool_sent p).
Proof.
  simpl.
  assert (G : forall p,
    countSiteVisited (pool_sent p) + pendingMatches (pool_runs p)
      <= countCheckUrlMatch (pool_sent p) ->
    countSiteVisited (pool_sent (interleave p acts))
      + pendingMatches (pool_runs (interleave p acts))
      <= countCheckUrlMatch (pool_sent (interleave p acts))).
  { induction acts as [|a acts IH]; intros p H; [exact H|].
    apply (IH (act p a)), act_bound, H. }
  apply G. simpl. change (countSiteVisited []) with 0. lia.
Qed.

(** X7. From the moment the script is loaded, its state and its log stay
    in step: either it has sent nothing, remembers no URL and has its flag
    down, or the URL it remembers is an http(s) URL for which it has sent
    a [CHECK_URL_MATCH]. The flag is never up before a check was sent. *)
Theorem remembered_url_was_checked (es : list Event) :
  let w := run loaded es in
  (lastProcessedUrl (detector w) = "" /\ hasNotifiedVisit (detector w) = false
   /\ sent w = [])
  \/ (isHttp (lastProcessedUrl (detector w)) = true
      /\ checkUrlMatch (lastProcessedUrl (detector w)) ∈ sent w).
Proof.
  simpl.
  assert (G : forall w,
    ((lastProcessedUrl (detector w) = "" /\ hasNotifiedVisit (detector w) = false
      /\ sent w = [])
     \/ (isHttp (lastProcessedUrl (detector w)) = true
         /\ checkUrlMatch (lastProcessedUrl (detector w)) ∈ sent w)) ->
    ((lastProcessedUrl (detector (run w es)) = ""
      /\ hasNotifiedVisit (detector (run w es)) = false
      /\ sent (run w es) = [])
     \/ (isHttp (lastProcessedUrl (detector (run w es))) = true
         /\ checkUrlMatch (lastProcessedUrl (detector (run w es)))
            ∈ sent (run w es)))).
  { induction es as [|e es IH]; intros w H; [exact H|].
    apply (IH (step w e)). clear IH.
    assert (P : forall t pg r,
      let w' := runProcessVisit
                  {| detector := detector w; timers := t; sent := sent w |} pg r in
      (lastProcessedUrl (detector w') = "" /\ hasNotifiedVisit (detector w') = false
       /\ sent w' = [])
      \/ (isHttp (lastProcessedUrl (detector w')) = true
          /\ checkUrlMatch (lastProcessedUrl (detector w')) ∈ sent w')).
    { intros t pg r. simpl. unfold runProcessVisit. simpl.
      destruct (begin_http (detector w) pg) as [E | (Hh & _ & E)].
      - unfold processVisit. rewrite E. simpl. rewrite app_nil_r. exact H.
      - right.
        destruct (processVisit_cases (detector w) pg r)
          as [E' | [(st' & -> & Hl & _) | (resp & res & _ & _ & _ & _ & _ & ->)]].
        + exfalso. revert E'. unfold processVisit. rewrite E. simpl.
          destruct (seg_next (processVisit_matched _ pg (href pg) (matchReply r)))
            as [[?|?]|]; intros [= _ ?].
        + simpl. rewrite Hl. split; [exact Hh|].
          apply elem_of_app. right. apply list_elem_of_here.
        + simpl. split; [exact Hh|].
          apply elem_of_app. right. apply list_elem_of_here. }
    destruct e as [pg r | pg | pg r | pg r]; simpl.
    - destruct w as [d t sn]. apply (P t pg r).
    - unfold handleUrlChange.
      destruct (negb (String.eqb (href pg) (lastProcessedUrl (detector w))));
        simpl; [|exact H].
      destruct H as [(H1 & H2 & H3) | H]; [left | right]; auto.
    - destruct (timers w) as [|n]; [exact H | apply (P n pg r)].
    - unfold handleVisibilityChange. destruct (visible pg); [|exact H].
      destruct w as [d t sn]. apply (P t pg r). }
  apply G. left. auto.
Qed.

End DetectorLog.

(* ===================================================================== *)
(** * Properties of the documented clients *)
(* ===================================================================== *)

Section ClientProps.
Import Js Types Listener Clients.

(** X8. [loadSites] over the envelope [handleGetSites] builds gives back
    exactly the sites the handler read, an empty collection included, and
    throws the handler's error message when the read failed, or 'Failed to
    load sites' when that message is empty; in general it returns only
    for a success envelope that carries data. *)
Theorem loadSites_returns_what_was_read :
  (forall getSites : Completion (list Site),
     loadSites (Normal (Some (handleGetSites getSites)))
     = match getSites with
       | Normal sites => Normal sites
       | Throw e =>
           Throw {| message := if String.eqb (message e) ""
                               then "Failed to load sites" else message e |}
       end)
  /\ (forall channel sites,
        loadSites channel = Normal sites <->
        exists r, channel = Normal (Some r) /\ success r = true
                  /\ data r = Some sites).
Proof.
  split.
  - intros [sites | e]; reflexivity.
  - intros channel sites. unfold loadSites. split.
    + destruct channel as [[r|]|e]; simpl; try discriminate.
      destruct (success r) eqn:Hs; [|discriminate].
      destruct (data r) as [l|] eqn:Hd; [|discriminate].
      intros [= <-]. exists r. auto.
    + intros (r & -> & Hs & Hd). simpl. rewrite Hs, Hd. reflexivity.
Qed.

(** X9. [saveSite] undoes the handler pattern: over the envelope the
    pattern builds from an operation's outcome it returns what the
    operation returned and throws what the operation threw, with the same
    message. *)
Theorem saveSite_undoes_handler (op : Completion (option Site)) :
  saveSite (Normal (Some (handler op))) = op.
Proof. destruct op as [v | [msg]]; reflexivity. Qed.

(** X10. A rejection in the background with an [Error] surfaces in the
    client: [saveSite] over the response the listener delivers throws an
    error with the same message; when the handler resolves, [saveSite]
    sees the response it resolved with; when it rejects with a value that
    has no [message], [saveSite] throws an error with an empty message;
    and when it rejects with [undefined] or [null], nothing is delivered
    for [saveSite] to read. *)
Theorem rejection_reaches_client
    (handleMessage : Message -> Settled (MessageResponse Site)) (m : Message) :
  match handleMessage m with
  | Rejected (ThrownError e) =>
      saveSite (Normal (head (snd (deliver handleMessage m)))) = Throw e
  | Fulfilled r =>
      saveSite (Normal (head (snd (deliver handleMessage m))))
      = saveSite (Normal (Some r))
  | Rejected ThrownOther =>
      saveSite (Normal (head (snd (deliver handleMessage m))))
      = Throw {| message := "" |}
  | Rejected ThrownNullish => snd (deliver handleMessage m) = []
  end.
Proof.
  rewrite deliver_cases.
  destruct (handleMessage m) as [r | [[msg] | |]]; reflexivity.
Qed.

End ClientProps.

(* ===================================================================== *)
(** * Properties of the theme hook *)
(* ===================================================================== *)

Section ThemeProps.
Import Js Types UseTheme.

Lemma theme_eqb_eq a b : theme_eqb a b = true <-> a = b.
Proof. destruct a, b; simpl; split; congruence. Qed.

Lemma applyTheme_classes window t h c :
  c ∈ classList (applyTheme window t h) <->
  (c = "dark" /\ resolvedTheme (applyTheme window t h) = Dark)
  \/ (c <> "dark" /\ c ∈ classList h).
Proof.
  unfold applyTheme. simpl.
  destruct (match t with
            | light => Light | dark => Dark | system => getSystemTheme window
            end); simpl.
  - rewrite elem_of_difference, elem_of_singleton.
    split; [intros [H1 H2]; right; auto | intros [[_ H] | [H1 H2]]; [discriminate | auto]].
  - rewrite elem_of_union, elem_of_singleton.
    split.
    + intros [-> | H]; [left; auto|].
      destruct (decide (c = "dark")) as [-> | Hne]; [left | right]; auto.
    + intros [[-> _] | [_ H]]; auto.
Qed.

(** X11. [applyTheme] puts the class [dark] on the document exactly when
    the theme resolves to dark and touches no other class; a light or dark
    theme resolves to itself whatever the system prefers, ['system']
    resolves to the system's preference, and light without a window;
    applying the same theme twice changes nothing more. *)
Theorem applyTheme_sets_only_dark (window : option Window) (t : Theme) (h : Hook) :
  let h' := applyTheme window t h in
  ("dark" ∈ classList h' <-> resolvedTheme h' = Dark)
  /\ (forall c, c <> "dark" -> (c ∈ classList h' <-> c ∈ classList h))
  /\ resolvedTheme h' =
       match t, window with
       | light, _ => Light
       | dark, _ => Dark
       | system, Some w => if prefersDark w then Dark else Light
       | system, None => Light
       end
  /\ theme h' = theme h
  /\ applyTheme window t h' = h'.
Proof.
  cbv zeta. split; [|split; [|split; [|split]]].
  - rewrite applyTheme_classes. split; [intros [[_ H] | [H _]]; congruence | auto].
  - intros c Hc. rewrite applyTheme_classes.
    split; [intros [[H _] | [_ H]]; congruence | auto].
  - destruct t, window as [w|]; reflexivity.
  - reflexivity.
  - unfold applyTheme. simpl. f_equal.
    destruct (match t with
              | light => Light | dark => Dark | system => getSystemTheme window
              end); apply set_eq; intros c;
      rewrite ?elem_of_difference, ?elem_of_union, ?elem_of_singleton; tauto.
Qed.

(** Applying a theme settles the class list, whatever it was. *)
Lemma applyTheme_settles window t h0 (classes : gset string) :
  (forall c, c <> "dark" -> (c ∈ classList h0 <-> c ∈ classes)) ->
  ("dark" ∈ classList (applyTheme window t h0)
     <-> resolvedTheme (applyTheme window t h0) = Dark)
  /\ (forall c, c <> "dark" ->
        (c ∈ classList (applyTheme window t h0) <-> c ∈ classes)).
Proof.
  intros H0. split.
  - rewrite applyTheme_classes. split; [intros [[_ H] | [H _]]; congruence | auto].
  - intros c Hc. rewrite applyTheme_classes. rewrite <- (H0 c Hc).
    split; [intros [[H _] | [_ H]]; congruence | auto].
Qed.

Lemma loadTheme_settles window storage h (classes : gset string) :
  (forall c, c <> "dark" -> (c ∈ classList h <-> c ∈ classes)) ->
  ("dark" ∈ classList (loadTheme window storage h)
     <-> resolvedTheme (loadTheme window storage h) = Dark)
  /\ (forall c, c <> "dark" ->
        (c ∈ classList (loadTheme window storage h) <-> c ∈ classes)).
Proof.
  intros H. unfold loadTheme. destruct storage; apply applyTheme_settles; exact H.
Qed.

Lemma react_keeps h e (classes : gset string) :
  ("dark" ∈ classList h <-> resolvedTheme h = Dark) ->
  (forall c, c <> "dark" -> (c ∈ classList h <-> c ∈ classes)) ->
  ("dark" ∈ classList (react h e) <-> resolvedTheme (react h e) = Dark)
  /\ (forall c, c <> "dark" -> (c ∈ classList (react h e) <-> c ∈ classes)).
Proof.
  intros H I.
  destruct e as [window storage | window current change area | window current | t];
    simpl.
  - apply loadTheme_settles, I.
  - unfold handleStorageChange.
    destruct (String.eqb area "sync"); [|split; [exact H | exact I]].
    destruct change as [[[v|]]|]; simpl; try (split; [exact H | exact I]).
    destruct (p_theme v) as [t|]; [|split; [exact H | exact I]].
    destruct (negb (theme_eqb t current)); [|split; [exact H | exact I]].
    apply applyTheme_settles; exact I.
  - unfold handleSystemChange.
    destruct current; try (split; [exact H | exact I]).
    apply applyTheme_settles; exact I.
  - split; [exact H | exact I].
Qed.

(** X12. Once the hook has loaded, whatever follows (further loads,
    storage changes, system preference changes, the component setting
    the theme), the document carries the class [dark] exactly when the
    resolved theme is dark, and every other class the document had is
    still there and none was added. *)
Theorem dark_class_tracks_resolved (classes : gset string)
    (window : option Window) (storage : Completion (option Settings))
    (es : list HookEvent) :
  let h := reacts (loadTheme window storage (mounted classes)) es in
  ("dark" ∈ classList h <-> resolvedTheme h = Dark)
  /\ (forall c, c <> "dark" -> (c ∈ classList h <-> c ∈ classes)).
Proof.
  cbv zeta.
  assert (G : forall h0,
    ("dark" ∈ classList h0 <-> resolvedTheme h0 = Dark) ->
    (forall c, c <> "dark" -> (c ∈ classList h0 <-> c ∈ classes)) ->
    ("dark" ∈ classList (reacts h0 es) <-> resolvedTheme (reacts h0 es) = Dark)
    /\ (forall c, c <> "dark" -> (c ∈ classList (reacts h0 es) <-> c ∈ classes))).
  { induction es as [|e es IH]; intros h0 H1 H2; [auto|].
    destruct (react_keeps h0 e classes H1 H2) as [K1 K2].
    apply (IH (react h0 e) K1 K2). }
  destruct (loadTheme_settles window storage (mounted classes) classes) as [K1 K2];
    [intros; reflexivity|].
  apply G; assumption.
Qed.

End ThemeProps.

(* ===================================================================== *)
(** * Properties of the names *)
(* ===================================================================== *)

Section Names.
Import Types.

(** X14. The names the constants span do not collide: no reminder alarm
    name is the daily-reset name, which does not even carry the reminder
    prefix; no site-visit notification id is the check-in reminder id,
    which does not carry the site-visit prefix; a reminder alarm name or a
    site-visit notification id determines the time or the site it was
    made from; and the two storage keys differ. *)
Theorem names_do_not_collide :
  (forall t, String.append DAILY_REMINDER_PREFIX t <> DAILY_RESET)
  /\ String.prefix DAILY_REMINDER_PREFIX DAILY_RESET = false
  /\ (forall t, String.prefix DAILY_REMINDER_PREFIX
                  (String.append DAILY_REMINDER_PREFIX t) = true)
  /\ (forall t t', String.append DAILY_REMINDER_PREFIX t
                   = String.append DAILY_REMINDER_PREFIX t' -> t = t')
  /\ (forall i, String.append SITE_VISIT_PREFIX i <> CHECKIN_REMINDER)
  /\ String.prefix SITE_VISIT_PREFIX CHECKIN_REMINDER = false
  /\ (forall i, String.prefix SITE_VISIT_PREFIX
                  (String.append SITE_VISIT_PREFIX i) = true)
  /\ (forall i i', String.append SITE_VISIT_PREFIX i
                   = String.append SITE_VISIT_PREFIX i' -> i = i')
  /\ STORAGE_KEYS_SITES <> STORAGE_KEYS_SETTINGS.
Proof.
  repeat split; try discriminate;
    try (intros; apply prefix_append);
    try (intros ? ?; apply append_inj).
Qed.

End Names.
